(** * The record layer of mint (record-layer.go), embedded in Rocq

    The Go code is translated function by function.  Go [int], [uint64],
    [uint16] and [byte] values are integers of [Z] with the conversions and
    wrap-arounds written out; byte slices are [list Z]; pointers to cipher
    states are locations of a store kept in the record layer; a run-time
    panic (index out of range, nil dereference, failed assertion, the
    explicit panic of [incrementSequenceNumber]) is an outcome of its own,
    distinct from a returned [error] value. *)

From Stdlib Require Import ZArith Lia Bool.
From stdpp Require Import base numbers option list gmap.

Local Open Scope Z_scope.

(** ** Outcomes, errors and panics *)

(** What stops a Go function without a return. *)
Inductive panic : Type :=
| IndexOutOfRange        (* runtime error: index or slice bound out of range *)
| MakeSliceLen           (* runtime error: makeslice: len out of range *)
| NilDereference         (* runtime error: invalid memory address *)
| AssertionFailed        (* assert(false) *)
| SequenceWraparound.    (* panic("TLS: sequence number wraparound") *)

(** The [error] values returned along the read and write paths. *)
Inductive error : Type :=
| AlertWouldBlock
| DecryptRecordTooShort (l overhead : Z)  (* DecryptError("... Record too short [%d] < [%d]") *)
| DecryptAEADFailed                       (* DecryptError("... AEAD decrypt failed") *)
| ErrUnknownContentType (b : Z)           (* "tls.record: Unknown content type %02x" *)
| ErrInvalidVersion (hi lo : Z)           (* "tls.record: Invalid version %02x%02x" *)
| ErrCiphertextTooBig                     (* "tls.record: Ciphertext size too big" *)
| ErrPlaintextTooBig                      (* "tls.record: Plaintext size too big" *)
| ErrPaddingCleartext                     (* "tls.record: Padding can only be done on encrypted records" *)
| ErrRecordTooBig                         (* "tls.record: Record size too big" *)
| ForeignError (code : Z).                (* an error of the transport or of the frame reader *)

(** The errors of Go type [DecryptError]. *)
Definition isDecryptError (e : error) : bool :=
  match e with
  | DecryptRecordTooShort _ _ | DecryptAEADFailed => true
  | _ => false
  end.

#[global] Instance error_eq_dec : EqDecision error.
Proof. solve_decision. Defined.

(** How a call ends: it returns a value with a nil error ([Ret]), it
    returns a non-nil error ([Err], the other results being zero values), it
    panics, or (for the loops that are run with fuel) the fuel ran out. *)
Inductive outcome (A : Type) : Type :=
| Ret (a : A)
| Err (e : error)
| Panic (p : panic)
| OutOfFuel.
Arguments Ret {A} a.
Arguments Err {A} e.
Arguments Panic {A} p.
Arguments OutOfFuel {A}.

#[global] Instance outcome_ret : MRet outcome := fun A a => Ret a.
#[global] Instance outcome_bind : MBind outcome := fun A B k m =>
  match m with
  | Ret a => k a
  | Err e => Err e
  | Panic p => Panic p
  | OutOfFuel => OutOfFuel
  end.

(** [assert] is not part of record-layer.go; it panics when its argument is
    false. *)
Definition assert (b : bool) : outcome unit :=
  if b then Ret tt else Panic AssertionFailed.

(** ** Byte slices *)

Definition len {A : Type} (l : list A) : Z := Z.of_nat (length l).

(** Go's conversion [byte(x)]. *)
Definition byte (x : Z) : Z := x mod 256.

Definition uint64 (x : Z) : Z := x mod 2 ^ 64.

(** [make([]byte, n)] *)
Definition make (n : Z) : outcome (list Z) :=
  if n <? 0 then Panic MakeSliceLen else Ret (replicate (Z.to_nat n) 0).

(** [l[i]] as a value *)
Definition index (l : list Z) (i : Z) : outcome Z :=
  if i <? 0 then Panic IndexOutOfRange
  else match l !! Z.to_nat i with
       | Some x => Ret x
       | None => Panic IndexOutOfRange
       end.

(** [l[i] = v] *)
Definition store (l : list Z) (i v : Z) : outcome (list Z) :=
  if (0 <=? i) && (i <? len l) then Ret (<[Z.to_nat i := v]> l)
  else Panic IndexOutOfRange.

(** [l[lo:hi]] on a slice whose capacity is its length *)
Definition slice (l : list Z) (lo hi : Z) : outcome (list Z) :=
  if (0 <=? lo) && (lo <=? hi) && (hi <=? len l)
  then Ret (take (Z.to_nat (hi - lo)) (drop (Z.to_nat lo) l))
  else Panic IndexOutOfRange.

(** [copy(dst, src)]: the first [min(len dst, len src)] bytes of [dst] are
    overwritten. *)
Definition copy (dst src : list Z) : list Z :=
  take (length dst) src ++ drop (length src) dst.

(** [append(buf[:0], data...)] seen through [buf]: when [data] fits the
    capacity of [buf] it is written over its first bytes, otherwise a new
    array is allocated and [buf] is left as it was. *)
Definition appendInPlace (buf data : list Z) : list Z :=
  if len data <=? len buf then data ++ drop (length data) buf else buf.

(** [for i := lo; i < lo + n; i++ { body }] *)
Fixpoint for_loop {S : Type} (n : nat) (i : Z) (body : Z -> S -> outcome S) (s : S)
  : outcome S :=
  match n with
  | O => Ret s
  | S n' => s' ← body i s; for_loop n' (i + 1) body s'
  end.

(** ** Constants of record-layer.go *)

Definition sequenceNumberLen : Z := 8.
Definition recordHeaderLenTLS : Z := 5.
Definition recordHeaderLenDTLS : Z := 13.
Definition maxFragmentLen : Z := Z.shiftl 1 14.

Inductive Direction : Type := DirectionWrite | DirectionRead.

Definition Direction_eqb (a b : Direction) : bool :=
  match a, b with
  | DirectionWrite, DirectionWrite | DirectionRead, DirectionRead => true
  | _, _ => false
  end.

(** ** The AEAD interface (crypto/cipher.AEAD)

    [Seal] and [Open] are given without their destination argument: the
    callers below pass [buf[:0]] and the result is put back with
    [appendInPlace]. *)
Record AEAD : Type := mkAEAD {
  NonceSize : Z;
  Overhead : Z;
  Seal : list Z -> list Z -> list Z -> list Z;          (* nonce, plaintext, additional data *)
  Open : list Z -> list Z -> list Z -> option (list Z)  (* nonce, ciphertext, additional data *)
}.

(** The contract of cipher.AEAD that the record layer relies on. *)
Record AEAD_ok (a : AEAD) : Prop := {
  overhead_nonneg : 0 <= Overhead a;
  seal_length : forall nonce pt ad, len (Seal a nonce pt ad) = len pt + Overhead a;
  open_seal : forall nonce pt ad, Open a nonce (Seal a nonce pt ad) ad = Some pt
}.

(** ** Plaintext records and cipher states *)

Record TLSPlaintext : Type := mkTLSPlaintext {
  contentType : Z;   (* RecordType, a byte *)
  pt_epoch : Z;      (* Epoch *)
  pt_seq : Z;        (* uint64 *)
  fragment : list Z
}.

Definition EpochClear : Z := 0.

Definition NewTLSPlaintext (ct epoch : Z) (frag : list Z) : TLSPlaintext :=
  {| contentType := ct; pt_epoch := epoch; pt_seq := 0; fragment := frag |}.

Record cipherState : Type := mkCipherState {
  epoch : Z;               (* DTLS epoch *)
  ivLength : Z;            (* Length of the seq and nonce fields *)
  seq : Z;                 (* Zero-padded sequence number *)
  iv : list Z;             (* Buffer for the IV; nil is the empty list *)
  cipher : option AEAD     (* AEAD cipher; nil is None *)
}.

Definition set_seq (c : cipherState) (s : Z) : cipherState :=
  {| epoch := epoch c; ivLength := ivLength c; seq := s; iv := iv c; cipher := cipher c |}.

Definition newCipherStateNull : cipherState :=
  {| epoch := EpochClear; ivLength := 0; seq := 0; iv := []; cipher := None |}.

Definition newCipherStateAead (ep : Z) (factory : list Z -> AEAD + error) (key iv0 : list Z)
  : cipherState + error :=
  match factory key with
  | inr err => inr err
  | inl a => inl {| epoch := ep; ivLength := len iv0; seq := 0; iv := iv0; cipher := Some a |}
  end.

Definition combineSeq (c : cipherState) (datagram : bool) : Z :=
  let s := seq c in
  if datagram then Z.lor s (uint64 (Z.shiftl (epoch c) 48)) else s.

Definition computeNonce_step (offset : Z) (i : Z) (st : list Z * Z) : outcome (list Z * Z) :=
  let '(nonce, s) := st in
  old ← index nonce ((offset - i) - 1);
  nonce' ← store nonce ((offset - i) - 1) (Z.lxor old (byte (Z.land s 255)));
  Ret (nonce', Z.shiftr s 8).

Definition computeNonce (c : cipherState) (sq : Z) : outcome (list Z) :=
  let nonce := copy (replicate (length (iv c)) 0) (iv c) in
  st ← for_loop 8 0 (computeNonce_step (len (iv c))) (nonce, sq);
  Ret (fst st).

(** The pointer receiver is rendered by returning the updated state next to
    the outcome: on the panic the state is the one that came in. *)
Definition incrementSequenceNumber (c : cipherState) : cipherState * outcome unit :=
  if seq c >=? Z.shiftl 1 48 - 1
  then (c, Panic SequenceWraparound)
  else (set_seq c (uint64 (seq c + 1)), Ret tt).

Definition overhead (c : cipherState) : Z :=
  match cipher c with
  | None => 0
  | Some a => Overhead a
  end.

(** [decodeUint] and [encodeUint] are not part of record-layer.go.

    Modelled from the spec: the helpers that read and write the
    fixed-width integers of the datagram header ("13-byte header: 1-byte
    type, 2-byte version, 8-byte sequence, 2-byte length"), most significant
    byte first, as the read path decodes the length field itself. *)
Fixpoint decodeUint_from (acc : Z) (l : list Z) : Z :=
  match l with
  | [] => acc
  | b :: l' => decodeUint_from (uint64 (Z.shiftl acc 8 + b)) l'
  end.

Definition decodeUint (l : list Z) (size : nat) : Z := decodeUint_from 0 (take size l).

Fixpoint encodeUint_le (v : Z) (size : nat) : list Z :=
  match size with
  | O => []
  | S n => byte (Z.land v 255) :: encodeUint_le (Z.shiftr v 8) n
  end.

Definition encodeUint (v : Z) (size : nat) : list Z := rev (encodeUint_le v size).

(** ** Framing *)

Record recordLayerFrameDetails : Type := { fd_datagram : bool }.

Definition headerLen (d : recordLayerFrameDetails) : Z :=
  if fd_datagram d then recordHeaderLenDTLS else recordHeaderLenTLS.

Definition defaultReadLen (d : recordLayerFrameDetails) : Z :=
  headerLen d + maxFragmentLen.

Definition frameLen (d : recordLayerFrameDetails) (hdr : list Z) : outcome Z :=
  hi ← index hdr (headerLen d - 2);
  lo ← index hdr (headerLen d - 1);
  Ret (Z.lor (Z.shiftl hi 8) lo).

(** The frame reader ([*frameReader], defined outside record-layer.go) as
    the record layer uses it: [needed], [addChunk], [process], and the
    framing details it was built with. *)
Class FrameReader (F : Type) : Type := {
  details : F -> recordLayerFrameDetails;
  needed : F -> Z;
  addChunk : F -> list Z -> F;
  process : F -> F * (list Z * list Z + error)
}.

(** The connection ([io.ReadWriter]).  [conn_Read c n] is [Read] on a buffer
    of [n] bytes: it returns the bytes read (their number is Go's [n]) and
    the error; [conn_Write] returns the error. *)
Class Transport (C : Type) : Type := {
  conn_Read : C -> Z -> C * (list Z * option error);
  conn_Write : C -> list Z -> C * option error
}.

(** ** The record layer *)

(** Declarations of the package that record-layer.go uses and does not
    define: the wire values of the four record types, the flag that
    switches the version check off, the initial version of a stream layer
    and the conversion to the DTLS wire version. *)
Class Package : Type := {
  RecordTypeAlert : Z;
  RecordTypeHandshake : Z;
  RecordTypeApplicationData : Z;
  RecordTypeAck : Z;
  allowWrongVersionNumber : bool;
  tls10Version : Z;
  dtlsConvertVersion : Z -> Z
}.

Section RecordLayer.

Context {F C : Type} `{FrameReader F} `{Transport C} `{Package}.

(** [label] (logging only) and [nextData] (never used) are left out.  A
    [*cipherState] is a location of [cipherStates]; [rl_cipher] is the
    field [cipher].  A nil map reads as the empty map. *)
Record DefaultRecordLayer : Type := mkLayer {
  direction : Direction;
  version : Z;                               (* uint16 *)
  conn : C;
  frame : F;
  cachedRecord : option TLSPlaintext;
  cachedError : option error;
  rl_cipher : nat;
  readCiphers : gmap Z nat;
  datagram : bool;
  cipherStates : list cipherState
}.

Definition set_version (r : DefaultRecordLayer) (v : Z) : DefaultRecordLayer :=
  mkLayer (direction r) v (conn r) (frame r) (cachedRecord r) (cachedError r)
          (rl_cipher r) (readCiphers r) (datagram r) (cipherStates r).
Definition set_conn (r : DefaultRecordLayer) (c : C) : DefaultRecordLayer :=
  mkLayer (direction r) (version r) c (frame r) (cachedRecord r) (cachedError r)
          (rl_cipher r) (readCiphers r) (datagram r) (cipherStates r).
Definition set_frame (r : DefaultRecordLayer) (f : F) : DefaultRecordLayer :=
  mkLayer (direction r) (version r) (conn r) f (cachedRecord r) (cachedError r)
          (rl_cipher r) (readCiphers r) (datagram r) (cipherStates r).
Definition set_cached (r : DefaultRecordLayer) (p : option TLSPlaintext) (e : option error)
  : DefaultRecordLayer :=
  mkLayer (direction r) (version r) (conn r) (frame r) p e
          (rl_cipher r) (readCiphers r) (datagram r) (cipherStates r).
Definition set_cipher (r : DefaultRecordLayer) (l : nat) : DefaultRecordLayer :=
  mkLayer (direction r) (version r) (conn r) (frame r) (cachedRecord r) (cachedError r)
          l (readCiphers r) (datagram r) (cipherStates r).
Definition set_readCiphers (r : DefaultRecordLayer) (m : gmap Z nat) : DefaultRecordLayer :=
  mkLayer (direction r) (version r) (conn r) (frame r) (cachedRecord r) (cachedError r)
          (rl_cipher r) m (datagram r) (cipherStates r).
Definition set_cipherStates (r : DefaultRecordLayer) (h : list cipherState) : DefaultRecordLayer :=
  mkLayer (direction r) (version r) (conn r) (frame r) (cachedRecord r) (cachedError r)
          (rl_cipher r) (readCiphers r) (datagram r) h.

(** Dereferencing a [*cipherState]. *)
Definition deref (r : DefaultRecordLayer) (l : nat) : outcome cipherState :=
  match cipherStates r !! l with
  | Some c => Ret c
  | None => Panic NilDereference
  end.

(** [r.cipher = &cipherState{...}]: a fresh location. *)
Definition alloc_cipher (r : DefaultRecordLayer) (c : cipherState) : DefaultRecordLayer :=
  set_cipher (set_cipherStates r (cipherStates r ++ [c])) (length (cipherStates r)).

Definition NewRecordLayerTLS (cn : C) (f : F) (dir : Direction) : DefaultRecordLayer :=
  {| direction := dir; version := tls10Version; conn := cn; frame := f;
     cachedRecord := None; cachedError := None;
     rl_cipher := 0%nat; readCiphers := ∅; datagram := false;
     cipherStates := [newCipherStateNull] |}.

Definition NewRecordLayerDTLS (cn : C) (f : F) (dir : Direction) : DefaultRecordLayer :=
  {| direction := dir; version := 0; conn := cn; frame := f;
     cachedRecord := None; cachedError := None;
     rl_cipher := 0%nat; readCiphers := {[ 0 := 0%nat ]}; datagram := true;
     cipherStates := [newCipherStateNull] |}.

Definition SetVersion (v : Z) (r : DefaultRecordLayer) : DefaultRecordLayer :=
  set_version r v.

Definition ResetClear (sq : Z) (r : DefaultRecordLayer) : DefaultRecordLayer :=
  alloc_cipher r (set_seq newCipherStateNull sq).

Definition Epoch (r : DefaultRecordLayer) : outcome Z :=
  c ← deref r (rl_cipher r); Ret (epoch c).

(** [keys.Keys[labelForKey]] and [keys.Keys[labelForIV]] are passed as [key]
    and [iv0]. *)
Definition Rekey (ep : Z) (factory : list Z -> AEAD + error) (key iv0 : list Z)
    (r : DefaultRecordLayer) : DefaultRecordLayer * option error :=
  match newCipherStateAead ep factory key iv0 with
  | inr err => (r, Some err)
  | inl c =>
      let r1 := alloc_cipher r c in
      if datagram r1 && Direction_eqb (direction r1) DirectionRead
      then (set_readCiphers r1 (<[ep := rl_cipher r1]> (readCiphers r1)), None)
      else (r1, None)
  end.

Definition DiscardReadKey (ep : Z) (r : DefaultRecordLayer)
  : DefaultRecordLayer * outcome unit :=
  if negb (datagram r) then (r, Ret tt)
  else match readCiphers r !! ep with
       | None => (r, Panic AssertionFailed)
       | Some _ => (set_readCiphers r (delete ep (readCiphers r)), Ret tt)
       end.

(** *** The record codec *)

Definition encrypt (r : DefaultRecordLayer) (c : cipherState) (sq : Z) (header : list Z)
    (pt : TLSPlaintext) (padLen : Z) : outcome (list Z) :=
  assert (Direction_eqb (direction r) DirectionWrite);;
  let originalLen := len (fragment pt) in
  let plaintextLen := originalLen + 1 + padLen in
  let ciphertextLen := plaintextLen + overhead c in
  buf ← make ciphertextLen;
  let ciphertext := copy buf (fragment pt) in
  ciphertext ← store ciphertext originalLen (byte (contentType pt));
  ciphertext ← for_loop (Z.to_nat padLen) 1
                 (fun i ct => store ct (originalLen + i) 0) ciphertext;
  payload ← slice ciphertext 0 plaintextLen;
  nonce ← computeNonce c sq;
  a ← match cipher c with Some a => Ret a | None => Panic NilDereference end;
  Ret (appendInPlace ciphertext (Seal a nonce payload header)).

(** The scan for the padding boundary (record-layer.go, line 288):
    [for ; padLen < decryptLen+1 && frag[decryptLen-padLen-1] == 0; padLen++ {}] *)
Fixpoint scanPadding (fuel : nat) (frag : list Z) (decryptLen padLen : Z) : outcome Z :=
  match fuel with
  | O => OutOfFuel
  | S fuel' =>
      if padLen <? decryptLen + 1 then
        b ← index frag (decryptLen - padLen - 1);
        if b =? 0 then scanPadding fuel' frag decryptLen (padLen + 1) else Ret padLen
      else Ret padLen
  end.

Definition decrypt (r : DefaultRecordLayer) (sq : Z) (header : list Z) (pt : TLSPlaintext)
  : outcome (TLSPlaintext * Z) :=
  assert (Direction_eqb (direction r) DirectionRead);;
  c ← deref r (rl_cipher r);
  if len (fragment pt) <? overhead c
  then Err (DecryptRecordTooShort (len (fragment pt)) (overhead c))
  else
    let decryptLen := len (fragment pt) - overhead c in
    buf ← make decryptLen;
    nonce ← computeNonce c sq;
    a ← match cipher c with Some a => Ret a | None => Panic NilDereference end;
    match Open a nonce (fragment pt) header with
    | None => Err DecryptAEADFailed
    | Some plain =>
        let out := appendInPlace buf plain in
        padLen ← scanPadding (Z.to_nat (decryptLen + 2)) out decryptLen 0;
        let newLen := decryptLen - padLen - 1 in
        ct ← index out newLen;
        frag ← slice out 0 newLen;
        Ret ({| contentType := ct; pt_epoch := 0; pt_seq := sq; fragment := frag |}, padLen)
    end.

(** *** The read path *)

(** The loop of [nextRecord] that waits for a frame (lines 350-379).  [Err]
    is one of its three [return nil, err]. *)
Fixpoint readFrame (fuel : nat) (r : DefaultRecordLayer)
  : DefaultRecordLayer * outcome (list Z * list Z) :=
  match fuel with
  | O => (r, OutOfFuel)
  | S fuel' =>
      let '(r1, fed) :=
        if needed (frame r) >? 0 then
          match make (headerLen (details (frame r)) + maxFragmentLen) with
          | Ret buf =>
              let '(c', (data, err)) := conn_Read (conn r) (len buf) in
              let r' := set_conn r c' in
              match err with
              | Some e => (r', Err e)
              | None =>
                  if len data =? 0 then (r', Err AlertWouldBlock)
                  else (set_frame r' (addChunk (frame r') data), Ret tt)
              end
          | Err e => (r, Err e)
          | Panic p => (r, Panic p)
          | OutOfFuel => (r, OutOfFuel)
          end
        else (r, Ret tt) in
      match fed with
      | Ret _ =>
          let '(f', res) := process (frame r1) in
          let r2 := set_frame r1 f' in
          match res with
          | inl (header, body) => (r2, Ret (header, body))
          | inr e =>
              if decide (e = AlertWouldBlock) then readFrame fuel' r2 else (r2, Err e)
          end
      | Err e => (r1, Err e)
      | Panic p => (r1, Panic p)
      | OutOfFuel => (r1, OutOfFuel)
      end
  end.

(** The [switch] on the content type (lines 383-388). *)
Definition knownRecordType (b : Z) : bool :=
  (b =? RecordTypeAlert) || (b =? RecordTypeHandshake)
  || (b =? RecordTypeApplicationData) || (b =? RecordTypeAck).

(** The version check (lines 390-393), with Go's short-circuit evaluation. *)
Definition validateVersion (header : list Z) : outcome unit :=
  if negb allowWrongVersionNumber then
    h1 ← index header 1;
    bad ← (if negb (h1 =? 3) then Ret true
           else h2 ← index header 2; Ret (negb (h2 =? 1)));
    if bad : bool then
      h1 ← index header 1; h2 ← index header 2; Err (ErrInvalidVersion h1 h2)
    else Ret tt
  else Ret tt.

(** From a frame to the record and the cipher state it was read under
    (lines 381-446); [cipherp] is the local [cipher], read from [r.cipher]
    when [nextRecord] starts. *)
Definition openFrame (allowOldEpoch : bool) (r : DefaultRecordLayer) (cipherp : nat)
    (header body : list Z) : outcome (TLSPlaintext * nat) :=
  h0 ← index header 0;
  (if knownRecordType h0 then Ret tt else Err (ErrUnknownContentType h0));;
  validateVersion header;;
  hi ← index header (len header - 2);
  lo ← index header (len header - 1);
  let size := Z.shiftl hi 8 + lo in
  if size >? maxFragmentLen + 256 then Err ErrCiphertextTooBig
  else
    buf ← make size;
    let pt := {| contentType := h0; pt_epoch := 0; pt_seq := 0;
                 fragment := copy buf body |} in
    cur ← deref r cipherp;
    '(sq, cipherp') ←
      (if datagram r then
         hs ← slice header 3 11;
         let sq := decodeUint hs 8 in
         let ep := Z.shiftr sq 48 in
         match readCiphers r !! ep with
         | None => Err AlertWouldBlock
         | Some c =>
             if negb (ep =? epoch cur) then
               if negb allowOldEpoch then Err AlertWouldBlock else Ret (sq, c)
             else Ret (sq, cipherp)
         end
       else Ret (seq cur, cipherp));
    sel ← deref r cipherp';
    pt ← match cipher sel with
          | Some _ => '(pt', _) ← decrypt r sq header pt; Ret pt'
          | None => Ret pt
          end;
    let pt := {| contentType := contentType pt; pt_epoch := epoch sel;
                 pt_seq := pt_seq pt; fragment := fragment pt |} in
    if len (fragment pt) >? maxFragmentLen then Err ErrPlaintextTooBig
    else Ret (pt, cipherp').

(** [cipher.incrementSequenceNumber()] through the pointer [l]. *)
Definition incrementAt (l : nat) (r : DefaultRecordLayer) : DefaultRecordLayer * outcome unit :=
  match cipherStates r !! l with
  | None => (r, Panic NilDereference)
  | Some c =>
      let '(c', o) := incrementSequenceNumber c in
      (set_cipherStates r (<[l := c']> (cipherStates r)), o)
  end.

(** [nextRecord] returns the pair of a [*TLSPlaintext] and an [error]. *)
Definition nextRecord (fuel : nat) (allowOldEpoch : bool) (r : DefaultRecordLayer)
  : DefaultRecordLayer * outcome (option TLSPlaintext * option error) :=
  let cipherp := rl_cipher r in
  match cachedRecord r with
  | Some pt => (r, Ret (Some pt, cachedError r))
  | None =>
      let '(r1, fr) := readFrame fuel r in
      match fr with
      | Ret (header, body) =>
          match openFrame allowOldEpoch r1 cipherp header body with
          | Ret (pt, cipherp') =>
              let r2 := set_cached r1 (Some pt) (cachedError r1) in
              let '(r3, o) := incrementAt cipherp' r2 in
              (r3, o;; Ret (Some pt, None))
          | Err e => (r1, Ret (None, Some e))
          | Panic p => (r1, Panic p)
          | OutOfFuel => (r1, OutOfFuel)
          end
      | Err e => (r1, Ret (None, Some e))
      | Panic p => (r1, Panic p)
      | OutOfFuel => (r1, OutOfFuel)
      end
  end.

(** [block] mode loops on would-block; each turn of the loop costs one unit
    of [fuel], and the frame loop inside gets [fuel] of its own. *)
Fixpoint PeekRecordType (fuel : nat) (block : bool) (r : DefaultRecordLayer)
  : DefaultRecordLayer * outcome Z :=
  match fuel with
  | O => (r, OutOfFuel)
  | S fuel' =>
      let '(r1, o) := nextRecord (S fuel') false r in
      match o with
      | Ret (Some pt, None) => (r1, Ret (contentType pt))
      | Ret (None, None) => (r1, Panic NilDereference)
      | Ret (_, Some err) =>
          if negb block || negb (bool_decide (err = AlertWouldBlock))
          then (r1, Err err)
          else PeekRecordType fuel' block r1
      | Err e => (r1, Err e)
      | Panic p => (r1, Panic p)
      | OutOfFuel => (r1, OutOfFuel)
      end
  end.

Definition ReadRecord (fuel : nat) (r : DefaultRecordLayer)
  : DefaultRecordLayer * outcome (option TLSPlaintext * option error) :=
  let '(r1, o) := nextRecord fuel false r in
  match o with
  | Ret res => (set_cached r1 None None, Ret res)
  | _ => (r1, o)
  end.

Definition ReadRecordAnyEpoch (fuel : nat) (r : DefaultRecordLayer)
  : DefaultRecordLayer * outcome (option TLSPlaintext * option error) :=
  let '(r1, o) := nextRecord fuel true r in
  match o with
  | Ret res => (set_cached r1 None None, Ret res)
  | _ => (r1, o)
  end.

(** *** The write path *)

(** The wire header (lines 471-485) and, with it, the bytes that follow
    (lines 462-500): what [writeRecordWithPadding] has computed when it
    reaches [record := append(header, ciphertext...)]. *)
Definition wireHeader (r : DefaultRecordLayer) (ct sq length : Z) : list Z :=
  if negb (datagram r) then
    [byte ct; byte (Z.shiftr (version r) 8); byte (Z.land (version r) 255);
     byte (Z.shiftr length 8); byte length]
  else
    let v := dtlsConvertVersion (version r) in
    [byte ct; byte (Z.shiftr v 8); byte (Z.land v 255)]
      ++ encodeUint sq 8 ++ encodeUint (uint64 length) 2.

Definition buildRecord (pt : TLSPlaintext) (c : cipherState) (padLen : Z)
    (r : DefaultRecordLayer) : outcome (list Z * list Z) :=
  let sq := combineSeq c (datagram r) in
  let '(length, ct) :=
    match cipher c with
    | Some a => (len (fragment pt) + (1 + padLen + Overhead a), RecordTypeApplicationData)
    | None => (len (fragment pt), contentType pt)
    end in
  let header := wireHeader r ct sq length in
  ciphertext ← match cipher c with
                | Some _ => encrypt r c sq header pt padLen
                | None => if padLen >? 0 then Err ErrPaddingCleartext else Ret (fragment pt)
                end;
  if len ciphertext >? maxFragmentLen then Err ErrRecordTooBig
  else Ret (header, ciphertext).

Definition writeRecordWithPadding (pt : TLSPlaintext) (cipherp : nat) (padLen : Z)
    (r : DefaultRecordLayer) : DefaultRecordLayer * outcome unit :=
  match cipherStates r !! cipherp with
  | None => (r, Panic NilDereference)
  | Some c =>
      match buildRecord pt c padLen r with
      | Ret (header, ciphertext) =>
          let record := header ++ ciphertext in
          let '(r1, o) := incrementAt cipherp r in
          match o with
          | Ret _ =>
              let '(c', err) := conn_Write (conn r1) record in
              (set_conn r1 c', match err with Some e => Err e | None => Ret tt end)
          | Err e => (r1, Err e)
          | Panic p => (r1, Panic p)
          | OutOfFuel => (r1, OutOfFuel)
          end
      | Err e => (r, Err e)
      | Panic p => (r, Panic p)
      | OutOfFuel => (r, OutOfFuel)
      end
  end.

Definition WriteRecord (pt : TLSPlaintext) (r : DefaultRecordLayer)
  : DefaultRecordLayer * outcome unit :=
  writeRecordWithPadding pt (rl_cipher r) 0 r.

Definition WriteRecordWithPadding (pt : TLSPlaintext) (padLen : Z) (r : DefaultRecordLayer)
  : DefaultRecordLayer * outcome unit :=
  writeRecordWithPadding pt (rl_cipher r) padLen r.

(** *** Vocabulary for the statements below *)

(** [r'] differs from [r] at most in the connection and the frame reader. *)
Definition same_but_io (r r' : DefaultRecordLayer) : Prop :=
  direction r' = direction r /\ version r' = version r
  /\ cachedRecord r' = cachedRecord r /\ cachedError r' = cachedError r
  /\ rl_cipher r' = rl_cipher r /\ readCiphers r' = readCiphers r
  /\ datagram r' = datagram r /\ cipherStates r' = cipherStates r.

End RecordLayer.

Arguments DefaultRecordLayer F C : clear implicits.

(** ** A frame reader, a connection and an AEAD to run the code on *)

(** Modelled from the spec: the frame reader itself is not part of
    record-layer.go.  Section 6.1: [bytes_needed] is 0 when a complete
    record may already be assembled from the buffered input and otherwise
    says how much more raw input is wanted; [add_chunk] appends raw bytes to
    the buffer; [try_assemble] carves one complete record's header and body
    out of the buffered input, given the framing mode's fixed header length
    and length field, or reports that it would block. *)
Record frameReader : Type := mkFrameReader {
  fr_details : recordLayerFrameDetails;
  fr_buffered : list Z
}.

Definition frameReader_needed (f : frameReader) : Z :=
  let h := headerLen (fr_details f) in
  if len (fr_buffered f) <? h then h - len (fr_buffered f)
  else match frameLen (fr_details f) (fr_buffered f) with
       | Ret n => Z.max 0 (h + n - len (fr_buffered f))
       | _ => 0
       end.

Definition frameReader_addChunk (f : frameReader) (chunk : list Z) : frameReader :=
  mkFrameReader (fr_details f) (fr_buffered f ++ chunk).

Definition frameReader_process (f : frameReader)
  : frameReader * (list Z * list Z + error) :=
  let h := Z.to_nat (headerLen (fr_details f)) in
  if (len (fr_buffered f) <? headerLen (fr_details f))
  then (f, inr AlertWouldBlock)
  else match frameLen (fr_details f) (fr_buffered f) with
       | Ret n =>
           if len (fr_buffered f) <? headerLen (fr_details f) + n
           then (f, inr AlertWouldBlock)
           else (mkFrameReader (fr_details f) (drop (h + Z.to_nat n) (fr_buffered f)),
                 inl (take h (fr_buffered f), take (Z.to_nat n) (drop h (fr_buffered f))))
       | _ => (f, inr AlertWouldBlock)
       end.

#[global] Instance frameReader_FrameReader : FrameReader frameReader := {
  details := fr_details;
  needed := frameReader_needed;
  addChunk := frameReader_addChunk;
  process := frameReader_process
}.

Definition newFrameReader (d : recordLayerFrameDetails) : frameReader :=
  mkFrameReader d [].

(** A connection for running the code: [incoming] holds what each coming
    [Read] delivers (nothing more once it is empty); [written] records the
    argument of each [Write], the last one first. *)
Record pipe : Type := mkPipe {
  incoming : list (list Z * option error);
  written : list (list Z)
}.

Definition pipe_Read (p : pipe) (n : Z) : pipe * (list Z * option error) :=
  match incoming p with
  | [] => (p, ([], None))
  | (data, err) :: rest => (mkPipe rest (written p), (take (Z.to_nat n) data, err))
  end.

Definition pipe_Write (p : pipe) (record : list Z) : pipe * option error :=
  (mkPipe (incoming p) (record :: written p), None).

#[global] Instance pipe_Transport : Transport pipe := {
  conn_Read := pipe_Read;
  conn_Write := pipe_Write
}.

(** A small AEAD for running the code: the plaintext is XORed with the key
    byte and followed by a one-byte tag over key, nonce, additional data and
    plaintext. *)
Definition sumBytes (l : list Z) : Z := foldr Z.add 0 l.

Definition testTag (k : Z) (nonce pt ad : list Z) : Z :=
  (k + sumBytes nonce + sumBytes ad + sumBytes pt) mod 256.

Definition testSeal (k : Z) (nonce pt ad : list Z) : list Z :=
  map (Z.lxor k) pt ++ [testTag k nonce pt ad].

Definition testOpen (k : Z) (nonce ct ad : list Z) : option (list Z) :=
  match last ct with
  | None => None
  | Some tag =>
      let pt := map (Z.lxor k) (take (length ct - 1) ct) in
      if tag =? testTag k nonce pt ad then Some pt else None
  end.

Definition testAEAD (k : Z) : AEAD :=
  {| NonceSize := 12; Overhead := 1; Seal := testSeal k; Open := testOpen k |}.

Definition testFactory (key : list Z) : AEAD + error :=
  inl (testAEAD (sumBytes key mod 256)).

(** ** Concrete settings and inputs

    The wire values of RFC 8446 for the record types (25 for mint's ack
    record), once with the version check on and once with it off. *)
Definition strictPackage : Package :=
  {| RecordTypeAlert := 21; RecordTypeHandshake := 22; RecordTypeApplicationData := 23;
     RecordTypeAck := 25; allowWrongVersionNumber := false; tls10Version := 769;
     dtlsConvertVersion := fun v => if v =? 771 then 65277 else 65279 |}.

Definition laxPackage : Package :=
  {| RecordTypeAlert := 21; RecordTypeHandshake := 22; RecordTypeApplicationData := 23;
     RecordTypeAck := 25; allowWrongVersionNumber := true; tls10Version := 769;
     dtlsConvertVersion := fun v => if v =? 771 then 65277 else 65279 |}.

Definition streamFraming : recordLayerFrameDetails := {| fd_datagram := false |}.
Definition datagramFraming : recordLayerFrameDetails := {| fd_datagram := true |}.

Definition iv12 : list Z := [0; 1; 2; 3; 4; 5; 6; 7; 8; 9; 10; 11].

(** The fragment "hello" as application data. *)
Definition hello : TLSPlaintext := NewTLSPlaintext 23 0 [104; 101; 108; 108; 111].

(** What the first [Read] of a connection delivers. *)
Definition delivering (wire : list Z) : pipe := mkPipe [(wire, None)] [].

(** The last record written to a connection. *)
Definition lastWritten (p : pipe) : list Z :=
  match written p with
  | x :: _ => x
  | [] => []
  end.

(** A stream reader keyed with [testAEAD 7] at epoch 1, with [wire] waiting
    on its connection. *)
Definition keyedReader (wire : list Z) : DefaultRecordLayer frameReader pipe :=
  fst (Rekey 1 testFactory [7] iv12
         (NewRecordLayerTLS (H1 := strictPackage) (delivering wire) (newFrameReader streamFraming) DirectionRead)).

(** A stream writer keyed the same way. *)
Definition keyedWriter : DefaultRecordLayer frameReader pipe :=
  fst (Rekey 1 testFactory [7] iv12
         (NewRecordLayerTLS (H1 := strictPackage) (mkPipe [] []) (newFrameReader streamFraming) DirectionWrite)).

(** A stream writer that was never keyed. *)
Definition clearWriter : DefaultRecordLayer frameReader pipe :=
  NewRecordLayerTLS (H1 := strictPackage) (mkPipe [] []) (newFrameReader streamFraming)
    DirectionWrite.

(** "hello" with two bytes of padding as [keyedWriter] puts it on the wire,
    and the same record with one byte of its body changed. *)
Definition helloRecord : list Z :=
  lastWritten (conn (fst (WriteRecordWithPadding (H1 := strictPackage) hello 2 keyedWriter))).

Definition corruptedRecord : list Z := <[7%nat := 0]> helloRecord.

(** A cleartext stream reader whose version was set to [v], with [wire]
    waiting on its connection. *)
Definition clearReader (v : Z) (wire : list Z) : DefaultRecordLayer frameReader pipe :=
  SetVersion v (NewRecordLayerTLS (H1 := strictPackage) (delivering wire) (newFrameReader streamFraming) DirectionRead).

(** A record whose AEAD payload is three zero bytes, sealed under
    [testAEAD 7] with the nonce of sequence number 0. *)
Definition zeroHeader : list Z := [23; 3; 1; 0; 4].
Definition zeroSealed : list Z := testSeal 7 iv12 [0; 0; 0] zeroHeader.

(** Datagram mode: a writer at epoch 2 (key 7) sends "hello"; the reader
    holds epochs 0, 2 (key 7) and 3 (key 9), and epoch 3 is current. *)
Definition epoch2Writer : DefaultRecordLayer frameReader pipe :=
  fst (Rekey 2 testFactory [7] iv12
         (SetVersion 771
            (NewRecordLayerDTLS (mkPipe [] []) (newFrameReader datagramFraming) DirectionWrite))).

Definition epoch2Datagram : list Z :=
  lastWritten (conn (fst (WriteRecord (H1 := laxPackage) hello epoch2Writer))).

Definition epoch3Reader : DefaultRecordLayer frameReader pipe :=
  fst (Rekey 3 testFactory [9] iv12
         (fst (Rekey 2 testFactory [7] iv12
                 (NewRecordLayerDTLS (delivering epoch2Datagram)
                    (newFrameReader datagramFraming) DirectionRead)))).

(** ** Vocabulary of the codec and the spec's nonce *)


(** The low 8 bytes of a sequence number, most significant first. *)
Definition seqBytes (sq : Z) : list Z :=
  [(sq / 2 ^ 56) mod 256; (sq / 2 ^ 48) mod 256; (sq / 2 ^ 40) mod 256;
   (sq / 2 ^ 32) mod 256; (sq / 2 ^ 24) mod 256; (sq / 2 ^ 16) mod 256;
   (sq / 2 ^ 8) mod 256; sq mod 256].

(** The spec's words: "copies the fixed IV, then XORs the low 8 bytes of seq
    (big-endian) into the last 8 bytes of the IV". *)
Definition nonceSpec (iv0 : list Z) (sq : Z) : list Z :=
  take (length iv0 - 8) iv0 ++ zip_with Z.lxor (drop (length iv0 - 8) iv0) (seqBytes sq).

(** ** Vocabulary for further statements *)

(** A frame header that passes the checks of [nextRecord] on content type,
    version and declared size (lines 382-400); [h0] is its first byte and
    [size] the length its last two bytes declare. *)
Definition acceptedHeader `{Package} (header : list Z) (h0 size : Z) : Prop :=
  index header 0 = Ret h0
  /\ knownRecordType h0 = true
  /\ validateVersion header = Ret tt
  /\ (exists hi lo,
        index header (len header - 2) = Ret hi
        /\ index header (len header - 1) = Ret lo
        /\ size = Z.shiftl hi 8 + lo)
  /\ 0 <= size <= maxFragmentLen + 256.

(** ** The envelope helper (AuthEnc, AuthDec)

    [etm.NewAES128SHA256] is outside the repository: [newAEAD] gives the
    AEAD value it returns for a key, nil being [None]; its error is
    discarded by both functions.  [Seal] and [Open] are called on a nil
    destination; the plaintext that [Open] returns next to an error is
    taken to be nil. *)
Definition authNonce : list Z := [0; 1; 2; 3; 4; 5; 6; 7; 8; 9; 10; 11; 12; 13; 14; 15].

Definition AuthEnc (newAEAD : list Z -> option AEAD) (pakeid RwdU EnvU : list Z)
  : outcome (list Z) :=
  match newAEAD RwdU with
  | Some aead =>
      let nonce := authNonce in
      let aad := nonce in
      Ret (Seal aead nonce EnvU aad)
  | None => Panic NilDereference
  end.

Definition AuthDec (newAEAD : list Z -> option AEAD) (pakeid RwdU EncU : list Z)
  : outcome (list Z) :=
  match newAEAD RwdU with
  | Some aead =>
      let nonce := authNonce in
      let aad := nonce in
      Ret (match Open aead nonce EncU aad with
           | Some EnvU => EnvU
           | None => []
           end)
  | None => Panic NilDereference
  end.

(** ** Hashing to the base field (hashToBase, cmov)

    [hash] is the digest that [hash.New], [Write] and [Sum(nil)] compute and
    [p] the prime [crv.Params().P], a positive number; [*big.Int] values are
    integers of [Z]. *)

(** [BitLen] of a [*big.Int]. *)
Definition bitLen (p : Z) : Z := if p =? 0 then 0 else Z.log2 (Z.abs p) + 1.

(** [SetBytes] of a [*big.Int]: the bytes as a big-endian unsigned integer. *)
Definition setBytes (b : list Z) : Z := fold_left (fun acc x => acc * 256 + x) b 0.

Definition hashToBase (hash : list Z -> list Z) (p : positive) (x : list Z) : outcome Z :=
  let b := hash x in
  let bits := bitLen (Z.pos p) in
  let bytes := Z.shiftr bits 3 in
  let bits := Z.land bits 7 in
  b ← slice b 0 bytes;
  last ← index b (bytes - 1);
  b ← store b (bytes - 1) (Z.land last (Z.shiftr 255 (8 - bits)));
  let n := setBytes b in
  Ret (n mod Z.pos p).

Definition cmov (a b : Z) (c : bool) : Z := if c then a else b.

(** The prime of P-256 and a 32-byte digest, for running [hashToBase]. *)
Definition p256 : positive :=
  Eval cbv in Z.to_pos (2 ^ 256 - 2 ^ 224 + 2 ^ 192 + 2 ^ 96 - 1).

Definition countingDigest (x : list Z) : list Z :=
  map (fun i => (i + sumBytes x) mod 256) (seqZ 1 32).

(** ** More concrete inputs *)

(** A cleartext stream reader with [wire] waiting, and one whose connection
    fails with a foreign error. *)
Definition plainReader (wire : list Z) : DefaultRecordLayer frameReader pipe :=
  NewRecordLayerTLS (H1 := strictPackage) (delivering wire) (newFrameReader streamFraming)
    DirectionRead.

Definition failingReader : DefaultRecordLayer frameReader pipe :=
  NewRecordLayerTLS (H1 := strictPackage) (mkPipe [([], Some (ForeignError 1))] [])
    (newFrameReader streamFraming) DirectionRead.

(** The record "A" of type application data, in the clear. *)
Definition clearRecord : list Z := [23; 3; 1; 0; 1; 65].

(** Datagram mode: a reader that knows epoch 0 only, with the epoch-2
    datagram waiting; a writer still at epoch 0 and the datagram it sends;
    a reader at epoch 3 with that epoch-0 datagram waiting. *)
Definition epoch0Reader : DefaultRecordLayer frameReader pipe :=
  NewRecordLayerDTLS (delivering epoch2Datagram) (newFrameReader datagramFraming)
    DirectionRead.

Definition epoch0Writer : DefaultRecordLayer frameReader pipe :=
  SetVersion 771
    (NewRecordLayerDTLS (mkPipe [] []) (newFrameReader datagramFraming) DirectionWrite).

Definition epoch0Datagram : list Z :=
  lastWritten (conn (fst (WriteRecord (H1 := laxPackage) hello epoch0Writer))).

Definition lateReader : DefaultRecordLayer frameReader pipe :=
  fst (Rekey 3 testFactory [9] iv12
         (NewRecordLayerDTLS (delivering epoch0Datagram) (newFrameReader datagramFraming)
            DirectionRead)).

(** A cleartext writer whose counter stands at its limit. *)
Definition limitWriter : DefaultRecordLayer frameReader pipe :=
  ResetClear (2 ^ 48 - 1) clearWriter.


(** The AEAD constructor of the envelope helper, on the test AEAD. *)
Definition testNewAEAD (key : list Z) : option AEAD :=
  Some (testAEAD (sumBytes key mod 256)).


(** ** Lemmas on byte slices *)

Lemma len_nonneg {A : Type} (l : list A) : 0 <= len l.
Proof. unfold len. lia. Qed.

Lemma len_app {A : Type} (l1 l2 : list A) : len (l1 ++ l2) = len l1 + len l2.
Proof. unfold len. rewrite length_app. lia. Qed.

Lemma len_replicate {A : Type} (n : nat) (x : A) : len (replicate n x) = Z.of_nat n.
Proof. unfold len. by rewrite length_replicate. Qed.

Lemma copy_replicate (l : list Z) (x : Z) : copy (replicate (length l) x) l = l.
Proof.
  unfold copy. rewrite length_replicate, firstn_all.
  rewrite drop_ge by (rewrite length_replicate; lia).
  apply app_nil_r.
Qed.

Lemma index_app_r (pre l : list Z) (k : Z) :
  0 <= k -> index (pre ++ l) (len pre + k) = index l k.
Proof.
  intros Hk. unfold index, len.
  destruct (Z.ltb_spec (Z.of_nat (length pre) + k) 0); [lia |].
  destruct (Z.ltb_spec k 0); [lia |].
  replace (Z.to_nat (Z.of_nat (length pre) + k)) with (length pre + Z.to_nat k)%nat by lia.
  by rewrite lookup_app_r, Nat.add_sub' by lia.
Qed.

Lemma store_app_r (pre l : list Z) (k v : Z) :
  0 <= k ->
  store (pre ++ l) (len pre + k) v = (l' ← store l k v; Ret (pre ++ l')).
Proof.
  intros Hk. unfold store. rewrite len_app.
  destruct (Z.leb_spec 0 k); [| lia].
  destruct (Z.leb_spec 0 (len pre + k)); [| pose proof (len_nonneg pre); lia].
  destruct (Z.ltb_spec k (len l)), (Z.ltb_spec (len pre + k) (len pre + len l));
    try lia; simpl; [| done].
  unfold len.
  replace (Z.to_nat (Z.of_nat (length pre) + k)) with (length pre + Z.to_nat k)%nat by lia.
  by rewrite insert_app_r.
Qed.

(** ** The sequence counter *)

Lemma uint64_small (x : Z) : 0 <= x < 2 ^ 64 -> uint64 x = x.
Proof. intros Hx. unfold uint64. by apply Z.mod_small. Qed.

(** ** The nonce *)

Lemma byte_land_255 (s : Z) : byte (Z.land s 255) = s mod 256.
Proof.
  unfold byte. change 255 with (Z.ones 8).
  rewrite Z.land_ones by lia. change (2 ^ 8) with 256.
  by rewrite Z.mod_mod.
Qed.

Lemma encodeUint_8_seqBytes (s : Z) : encodeUint s 8 = seqBytes s.
Proof.
  unfold encodeUint, seqBytes. cbn [encodeUint_le rev app].
  rewrite !byte_land_255, !Z.shiftr_shiftr by lia.
  by rewrite !Z.shiftr_div_pow2 by lia.
Qed.

Lemma computeNonce_last8 (a0 a1 a2 a3 a4 a5 a6 a7 s : Z) :
  (st ← for_loop 8 0 (computeNonce_step 8) ([a0; a1; a2; a3; a4; a5; a6; a7], s); Ret (fst st))
  = Ret (zip_with Z.lxor [a0; a1; a2; a3; a4; a5; a6; a7] (encodeUint s 8)).
Proof. reflexivity. Qed.

Lemma for_loop_S {S : Type} (n : nat) (i : Z) (body : Z -> S -> outcome S) (s : S) :
  for_loop (Datatypes.S n) i body s = (s' ← body i s; for_loop n (i + 1) body s').
Proof. reflexivity. Qed.

Lemma computeNonce_step_app (pre l : list Z) (i s : Z) :
  0 <= i < 8 ->
  computeNonce_step (len pre + 8) i (pre ++ l, s)
  = (st ← computeNonce_step 8 i (l, s); Ret (pre ++ fst st, snd st)).
Proof.
  intros Hi. unfold computeNonce_step.
  replace (len pre + 8 - i - 1) with (len pre + (8 - i - 1)) by lia.
  rewrite index_app_r by lia.
  destruct (index l (8 - i - 1)) as [old | | |]; try done. simpl.
  rewrite store_app_r by lia.
  by destruct (store l (8 - i - 1) _).
Qed.

Lemma for_loop_nonce_app (pre : list Z) (n : nat) :
  forall (i : Z) (l : list Z) (s : Z),
    0 <= i -> i + Z.of_nat n <= 8 ->
    for_loop n i (computeNonce_step (len pre + 8)) (pre ++ l, s)
    = (st ← for_loop n i (computeNonce_step 8) (l, s); Ret (pre ++ fst st, snd st)).
Proof.
  induction n as [| n IH]; intros i l s Hi Hn; [done |].
  rewrite !for_loop_S, computeNonce_step_app by lia.
  destruct (computeNonce_step 8 i (l, s)) as [[l' s'] | | |]; try done.
  simpl. apply IH; lia.
Qed.

Lemma list_length_8 (l : list Z) :
  length l = 8%nat ->
  exists a0 a1 a2 a3 a4 a5 a6 a7, l = [a0; a1; a2; a3; a4; a5; a6; a7].
Proof.
  intros Hl.
  do 8 (destruct l as [| ? l]; [discriminate |]).
  destruct l; [| discriminate]. by repeat eexists.
Qed.

(** An IV of at least eight bytes is a prefix followed by its last eight. *)
Lemma iv_split (iv0 : list Z) :
  8 <= len iv0 ->
  exists pre a0 a1 a2 a3 a4 a5 a6 a7,
    iv0 = pre ++ [a0; a1; a2; a3; a4; a5; a6; a7] /\ length pre = (length iv0 - 8)%nat.
Proof.
  intros Hlen. unfold len in Hlen.
  destruct (list_length_8 (drop (length iv0 - 8) iv0))
    as (a0 & a1 & a2 & a3 & a4 & a5 & a6 & a7 & Hd).
  { rewrite length_drop. lia. }
  exists (take (length iv0 - 8) iv0), a0, a1, a2, a3, a4, a5, a6, a7. split.
  - by rewrite <- Hd, take_drop.
  - rewrite length_take. lia.
Qed.

Lemma computeNonce_refines (c : cipherState) (sq : Z) :
  8 <= len (iv c) -> computeNonce c sq = Ret (nonceSpec (iv c) sq).
Proof.
  intros Hlen.
  destruct (iv_split (iv c) Hlen) as (pre & a0 & a1 & a2 & a3 & a4 & a5 & a6 & a7 & Hiv & Hpre).
  unfold computeNonce, nonceSpec. rewrite copy_replicate.
  rewrite <- Hpre. rewrite Hiv at 1 2 3 4.
  rewrite len_app. change (len [a0; a1; a2; a3; a4; a5; a6; a7]) with 8.
  rewrite for_loop_nonce_app by lia.
  pose proof (computeNonce_last8 a0 a1 a2 a3 a4 a5 a6 a7 sq) as Hlast.
  destruct (for_loop 8 0 (computeNonce_step 8) _) as [[l' s'] | | |]; try done.
  simpl in Hlast. injection Hlast as ->. simpl.
  by rewrite take_app_length, drop_app_length, <- encodeUint_8_seqBytes.
Qed.

Lemma computeNonce_short_iv (c : cipherState) (sq : Z) :
  len (iv c) < 8 -> computeNonce c sq = Panic IndexOutOfRange.
Proof.
  intros Hlen. unfold computeNonce. rewrite copy_replicate.
  unfold len in *.
  destruct (iv c) as [| b0 [| b1 [| b2 [| b3 [| b4 [| b5 [| b6 [| b7 l]]]]]]]];
    try reflexivity.
  simpl in Hlen. lia.
Qed.

Lemma lxor_cancel_l (x a b : Z) : Z.lxor x a = Z.lxor x b -> a = b.
Proof.
  intros Heq. apply (f_equal (Z.lxor x)) in Heq.
  by rewrite <- !Z.lxor_assoc, Z.lxor_nilpotent, !Z.lxor_0_l in Heq.
Qed.

Lemma zip_with_lxor_inj (l : list Z) :
  forall a b : list Z,
    length a = length l -> length b = length l ->
    zip_with Z.lxor l a = zip_with Z.lxor l b -> a = b.
Proof.
  induction l as [| x l IH]; intros [| a0 a] [| b0 b] Ha Hb Heq;
    try discriminate; [done |].
  simpl in *. injection Heq as H0 Hrest.
  f_equal; [by eapply lxor_cancel_l | apply IH; congruence].
Qed.

Lemma length_encodeUint_le (n : nat) : forall v, length (encodeUint_le v n) = n.
Proof. induction n as [| n IH]; intros v; simpl; [done | by rewrite IH]. Qed.

Lemma length_encodeUint (v : Z) (n : nat) : length (encodeUint v n) = n.
Proof. unfold encodeUint. by rewrite length_rev, length_encodeUint_le. Qed.

Lemma encodeUint_le_inj (n : nat) :
  forall s s' : Z,
    0 <= s < 2 ^ (8 * Z.of_nat n) -> 0 <= s' < 2 ^ (8 * Z.of_nat n) ->
    encodeUint_le s n = encodeUint_le s' n -> s = s'.
Proof.
  induction n as [| n IH]; intros s s' Hs Hs' Heq.
  - simpl in Hs, Hs'. lia.
  - simpl in Heq. injection Heq as Hlow Hhigh.
    rewrite !byte_land_255 in Hlow.
    rewrite !Z.shiftr_div_pow2 in Hhigh by lia. change (2 ^ 8) with 256 in Hhigh.
    replace (8 * Z.of_nat (S n)) with (8 + 8 * Z.of_nat n) in Hs, Hs' by lia.
    rewrite Z.pow_add_r in Hs, Hs' by lia. change (2 ^ 8) with 256 in Hs, Hs'.
    apply IH in Hhigh.
    + rewrite (Z.div_mod s 256), (Z.div_mod s' 256) by lia. congruence.
    + split; [apply Z.div_pos; lia | apply Z.div_lt_upper_bound; lia].
    + split; [apply Z.div_pos; lia | apply Z.div_lt_upper_bound; lia].
Qed.

Lemma encodeUint_8_inj (s s' : Z) :
  0 <= s < 2 ^ 64 -> 0 <= s' < 2 ^ 64 -> encodeUint s 8 = encodeUint s' 8 -> s = s'.
Proof.
  intros Hs Hs' Heq. unfold encodeUint in Heq.
  apply (f_equal (@rev Z)) in Heq. rewrite !rev_involutive in Heq.
  by apply (encodeUint_le_inj 8).
Qed.

Lemma nonceSpec_inj (iv0 : list Z) (s s' : Z) :
  8 <= len iv0 -> 0 <= s < 2 ^ 64 -> 0 <= s' < 2 ^ 64 ->
  nonceSpec iv0 s = nonceSpec iv0 s' -> s = s'.
Proof.
  intros Hlen Hs Hs' Heq. unfold nonceSpec, len in *.
  apply app_inv_head in Heq.
  rewrite <- !encodeUint_8_seqBytes in Heq.
  apply zip_with_lxor_inj in Heq.
  - by apply encodeUint_8_inj.
  - rewrite length_encodeUint, length_drop. lia.
  - rewrite length_encodeUint, length_drop. lia.
Qed.

(** C6: [computeNonce] depends on the IV and the sequence argument only; for
    an IV of at least eight bytes it returns the IV with the eight
    big-endian bytes of [sq] XORed into its last eight bytes, and under one
    IV two distinct sequence values below 2^64 give distinct nonces. *)
Theorem computeNonce_spec (c : cipherState) (sq : Z) :
  8 <= len (iv c) ->
  computeNonce c sq = Ret (nonceSpec (iv c) sq)
  /\ (forall c' : cipherState, iv c' = iv c -> computeNonce c' sq = computeNonce c sq)
  /\ (forall sq' : Z,
        0 <= sq < 2 ^ 64 -> 0 <= sq' < 2 ^ 64 -> sq <> sq' ->
        computeNonce c sq <> computeNonce c sq').
Proof.
  intros Hlen. split; [by apply computeNonce_refines |]. split.
  - intros c' Hiv. unfold computeNonce. by rewrite Hiv.
  - intros sq' Hs Hs' Hne Heq.
    rewrite !computeNonce_refines in Heq by done.
    injection Heq as Heq. by apply Hne, (nonceSpec_inj (iv c)).
Qed.

(** C4: below 2^48-1 the counter becomes exactly s+1; from 2^48-1 on the
    call panics and leaves the state as it was, so that a successful call
    always ends on a strictly larger counter, at most 2^48-1. *)
Theorem incrementSequenceNumber_spec (c : cipherState) :
  0 <= seq c < 2 ^ 64 ->
  (seq c < 2 ^ 48 - 1 -> incrementSequenceNumber c = (set_seq c (seq c + 1), Ret tt))
  /\ (2 ^ 48 - 1 <= seq c -> incrementSequenceNumber c = (c, Panic SequenceWraparound))
  /\ (forall c' o,
        incrementSequenceNumber c = (c', o) ->
        (o = Ret tt /\ seq c' = seq c + 1 /\ seq c' <= 2 ^ 48 - 1)
        \/ (o = Panic SequenceWraparound /\ c' = c)).
Proof.
  intros Hrange. unfold incrementSequenceNumber.
  change (Z.shiftl 1 48) with (2 ^ 48).
  destruct (Z.geb_spec (seq c) (2 ^ 48 - 1)) as [Hmax | Hlt].
  - split; [lia |]. split; [done |].
    intros c' o [= <- <-]. by right.
  - rewrite uint64_small by lia.
    split; [done |]. split; [lia |].
    intros c' o [= <- <-]. left. simpl. split; [done | lia].
Qed.

(** ** The record codec *)

Lemma make_replicate (n : nat) : make (Z.of_nat n) = Ret (replicate n 0).
Proof.
  unfold make. destruct (Z.ltb_spec (Z.of_nat n) 0); [lia |].
  by rewrite Nat2Z.id.
Qed.


Lemma index_head (x : Z) (l : list Z) : index (x :: l) 0 = Ret x.
Proof. reflexivity. Qed.



Lemma store_head (x v : Z) (l : list Z) : store (x :: l) 0 v = Ret (v :: l).
Proof.
  unfold store, len. simpl length.
  destruct (Z.ltb_spec 0 (Z.of_nat (S (length l)))); [done | lia].
Qed.




(** All-zero data written over an all-zero buffer leaves it all zero,
    whether or not it fits. *)
Lemma appendInPlace_zeros (n : nat) (data : list Z) :
  Forall (fun b => b = 0) data ->
  appendInPlace (replicate n 0) data = replicate n 0.
Proof.
  intros Hzero. unfold appendInPlace.
  destruct (Z.leb_spec (len data) (len (replicate n 0))) as [Hfit |]; [| done].
  rewrite len_replicate in Hfit. unfold len in Hfit.
  assert (data = replicate (length data) 0) as ->.
  { clear Hfit. induction Hzero as [| x l -> _ IH]; simpl; [done | by rewrite <- IH]. }
  rewrite length_replicate, drop_replicate, <- replicate_add.
  f_equal. lia.
Qed.





Section Properties.

Context {F C : Type} `{FrameReader F} `{Transport C} `{Package}.

Implicit Types r rw rr : DefaultRecordLayer F C.



Lemma knownRecordType_cases (b : Z) :
  knownRecordType b = true ->
  b ∈ [RecordTypeAlert; RecordTypeHandshake; RecordTypeApplicationData; RecordTypeAck].
Proof.
  unfold knownRecordType. rewrite !orb_true_iff, !Z.eqb_eq.
  intros [[[-> | ->] | ->] | ->]; set_solver.
Qed.


Lemma index_replicate_zero (n : nat) (j : Z) :
  0 <= j < Z.of_nat n -> index (replicate n 0) j = Ret 0.
Proof.
  intros Hj. unfold index. destruct (Z.ltb_spec j 0); [lia |].
  by rewrite lookup_replicate_2 by lia.
Qed.

(** On an all-zero buffer the scan runs off its start: once every byte has
    been read the bound [padLen < decryptLen+1] still holds and index -1 is
    read. *)
Lemma scanPadding_zeros (n : nat) :
  forall (d : nat) (k : Z) (fuel : nat),
    Z.of_nat d = Z.of_nat n - k -> 0 <= k -> (d < fuel)%nat ->
    scanPadding fuel (replicate n 0) (Z.of_nat n) k = Panic IndexOutOfRange.
Proof.
  induction d as [| d IH]; intros k fuel Hd Hk Hfuel;
    (destruct fuel as [| fuel]; [lia |]); simpl scanPadding;
    (destruct (Z.ltb_spec k (Z.of_nat n + 1)); [| lia]).
  - by replace (Z.of_nat n - k - 1) with (-1) by lia.
  - rewrite index_replicate_zero by lia. simpl. apply IH; lia.
Qed.

(** C1 (what the code does): when the AEAD opens a record to a payload of
    zero bytes only, [decrypt] does not return an error: it panics with an
    index out of range, having read index -1 of the decrypted buffer. *)
Theorem decrypt_all_zero_payload_panics r (c : cipherState) (a : AEAD) (sq : Z)
    (header : list Z) (wire : TLSPlaintext) (nonce plain : list Z) :
  direction r = DirectionRead ->
  cipherStates r !! rl_cipher r = Some c -> cipher c = Some a ->
  Overhead a <= len (fragment wire) ->
  computeNonce c sq = Ret nonce ->
  Open a nonce (fragment wire) header = Some plain ->
  Forall (fun b => b = 0) plain ->
  decrypt r sq header wire = Panic IndexOutOfRange.
Proof.
  intros Hdir Hcur Hc Hlen Hnonce Hopen Hzero. unfold decrypt, deref.
  rewrite Hdir, Hcur. cbn [mbind outcome_bind assert Direction_eqb].
  unfold overhead. rewrite Hc.
  destruct (Z.ltb_spec (len (fragment wire)) (Overhead a)); [lia |].
  set (n := Z.to_nat (len (fragment wire) - Overhead a)).
  replace (len (fragment wire) - Overhead a) with (Z.of_nat n) by lia.
  rewrite make_replicate, Hnonce. cbn [mbind outcome_bind]. rewrite Hopen.
  rewrite appendInPlace_zeros by done.
  by rewrite (scanPadding_zeros n n 0) by lia.
Qed.

(** *** Lengths along [encrypt] *)

Lemma bind_Ret_inv {A B : Type} (m : outcome A) (k : A -> outcome B) (b : B) :
  m ≫= k = Ret b -> exists a, m = Ret a /\ k a = Ret b.
Proof. destruct m as [a | | |]; try done. intros Hk. by exists a. Qed.

Lemma bind_Err_inv {A B : Type} (m : outcome A) (k : A -> outcome B) (e : error) :
  m ≫= k = Err e -> m = Err e \/ exists a, m = Ret a /\ k a = Err e.
Proof.
  destruct m as [a | e' | |]; simpl; intros Hk; try done.
  - right. by exists a.
  - left. by injection Hk as ->.
Qed.

Lemma make_Ret (n : Z) (l : list Z) : make n = Ret l -> len l = n.
Proof.
  unfold make. destruct (Z.ltb_spec n 0); [done |].
  intros [= <-]. rewrite len_replicate. lia.
Qed.

Lemma store_Ret (l l' : list Z) (i v : Z) : store l i v = Ret l' -> len l' = len l.
Proof.
  unfold store. destruct (_ && _); [| done].
  intros [= <-]. unfold len. by rewrite length_insert.
Qed.

Lemma for_loop_store_len (f : Z -> Z) (v : Z) (n : nat) :
  forall (i : Z) (l l' : list Z),
    for_loop n i (fun i ct => store ct (f i) v) l = Ret l' -> len l' = len l.
Proof.
  induction n as [| n IH]; intros i l l' Hloop; [by injection Hloop as -> |].
  rewrite for_loop_S in Hloop.
  apply bind_Ret_inv in Hloop as (l1 & Hstore & Hrest).
  apply store_Ret in Hstore. apply IH in Hrest. congruence.
Qed.

Lemma len_copy (dst src : list Z) : len (copy dst src) = len dst.
Proof.
  unfold copy, len. rewrite length_app, length_take, length_drop. lia.
Qed.

Lemma len_appendInPlace (buf data : list Z) : len (appendInPlace buf data) = len buf.
Proof.
  unfold appendInPlace. destruct (Z.leb_spec (len data) (len buf)); [| done].
  unfold len in *. rewrite length_app, length_drop. lia.
Qed.

(** Whatever the AEAD does, [encrypt] returns as many bytes as it
    allocated. *)
Lemma encrypt_length r (c : cipherState) (sq : Z) (header : list Z) (pt : TLSPlaintext)
    (padLen : Z) (ciphertext : list Z) :
  encrypt r c sq header pt padLen = Ret ciphertext ->
  len ciphertext = len (fragment pt) + 1 + padLen + overhead c.
Proof.
  unfold encrypt. intros Henc.
  apply bind_Ret_inv in Henc as (_ & _ & Henc).
  apply bind_Ret_inv in Henc as (buf & Hmake & Henc).
  apply bind_Ret_inv in Henc as (ct1 & Hstore & Henc).
  apply bind_Ret_inv in Henc as (ct2 & Hloop & Henc).
  apply bind_Ret_inv in Henc as (payload & _ & Henc).
  apply bind_Ret_inv in Henc as (nonce & _ & Henc).
  apply bind_Ret_inv in Henc as (a & _ & Henc).
  injection Henc as <-.
  apply make_Ret in Hmake. apply store_Ret in Hstore.
  apply (for_loop_store_len (fun i => len (fragment pt) + i)) in Hloop.
  rewrite len_copy in Hstore. rewrite len_appendInPlace. congruence.
Qed.

(** *** The length field of the wire header *)

Lemma length_field_decodes (x : Z) :
  0 <= x < 2 ^ 16 ->
  Z.lor (Z.shiftl ((x / 256) mod 256) 8) (x mod 256) = x.
Proof.
  intros Hx. apply Z.bits_inj'. intros n Hn.
  rewrite Z.lor_spec, Z.shiftl_spec by lia.
  change 256 with (2 ^ 8).
  destruct (Z.lt_ge_cases n 8) as [Hlow | Hhigh].
  - rewrite (Z.testbit_neg_r _ (n - 8)) by lia.
    by rewrite Z.mod_pow2_bits_low by lia.
  - rewrite (Z.mod_pow2_bits_high x 8 n) by lia. rewrite orb_false_r.
    destruct (Z.lt_ge_cases n 16) as [Hmid | Htop].
    + rewrite Z.mod_pow2_bits_low by lia.
      rewrite <- Z.shiftr_div_pow2, Z.shiftr_spec by lia.
      f_equal. lia.
    + rewrite Z.mod_pow2_bits_high by lia.
      symmetry. destruct (Z.eq_dec x 0) as [-> | Hnz]; [apply Z.bits_0 |].
      apply Z.bits_above_log2; [lia |].
      assert (Z.log2 x < 16) by (apply Z.log2_lt_pow2; lia). lia.
Qed.

Lemma byte_shiftr_8 (x : Z) : byte (Z.shiftr x 8) = (x / 256) mod 256.
Proof. unfold byte. by rewrite Z.shiftr_div_pow2 by lia. Qed.

Lemma wireHeader_fields r (ct sq length : Z) :
  0 <= length < 2 ^ 16 ->
  let d := {| fd_datagram := datagram r |} in
  len (wireHeader r ct sq length) = headerLen d
  /\ wireHeader r ct sq length !! 0%nat = Some (byte ct)
  /\ frameLen d (wireHeader r ct sq length) = Ret length.
Proof.
  intros Hlen d. unfold wireHeader, frameLen, headerLen, d. simpl fd_datagram.
  destruct (datagram r); simpl negb; cbv iota.
  - cbv zeta. set (v := dtlsConvertVersion (version r)).
    rewrite (app_assoc [byte ct; byte (Z.shiftr v 8); byte (Z.land v 255)]).
    set (pre := [byte ct; byte (Z.shiftr v 8); byte (Z.land v 255)] ++ encodeUint sq 8).
    assert (len pre = 11) as Hpre
      by (unfold pre; rewrite len_app; unfold len; by rewrite length_encodeUint).
    rewrite uint64_small by lia.
    change (encodeUint length 2)
      with [byte (Z.land (Z.shiftr length 8) 255); byte (Z.land length 255)].
    split; [by rewrite len_app, Hpre | split; [done |]].
    change (recordHeaderLenDTLS - 2) with (11 + 0).
    change (recordHeaderLenDTLS - 1) with (11 + 1).
    rewrite <- Hpre, !index_app_r by lia.
    change (index [_; _] 0) with (Ret (byte (Z.land (Z.shiftr length 8) 255))).
    change (index [_; _] 1) with (Ret (byte (Z.land length 255))).
    cbn [mbind outcome_bind].
    rewrite !byte_land_255, Z.shiftr_div_pow2 by lia. change (2 ^ 8) with 256.
    by rewrite length_field_decodes.
  - split; [done | split; [done |]].
    change (index _ (recordHeaderLenTLS - 2)) with (Ret (byte (Z.shiftr length 8))).
    change (index _ (recordHeaderLenTLS - 1)) with (Ret (byte length)).
    cbn [mbind outcome_bind].
    rewrite byte_shiftr_8. unfold byte. by rewrite length_field_decodes.
Qed.

(** What [writeRecordWithPadding] does once the record is built: it advances
    the counter and hands header and body to the connection in one
    [Write]. *)
Lemma writeRecordWithPadding_emits r (pt : TLSPlaintext) (c : cipherState) (cipherp : nat)
    (padLen : Z) (header ciphertext : list Z) :
  cipherStates r !! cipherp = Some c ->
  buildRecord pt c padLen r = Ret (header, ciphertext) ->
  forall r1, incrementAt cipherp r = (r1, Ret tt) ->
  writeRecordWithPadding pt cipherp padLen r
  = (set_conn r1 (fst (conn_Write (conn r1) (header ++ ciphertext))),
     match snd (conn_Write (conn r1) (header ++ ciphertext)) with
     | Some e => Err e
     | None => Ret tt
     end).
Proof.
  intros Hc Hbuild r1 Hinc. unfold writeRecordWithPadding.
  rewrite Hc, Hbuild, Hinc. by destruct (conn_Write _ _).
Qed.

(** C7: the header of every record that is built for the wire.  With an AEAD
    active its first byte is the ApplicationData type and its length field
    holds plaintext length + 1 + padLen + overhead; without one its first
    byte is the record's own type and the length field holds the fragment
    length.  The record handed to the connection is this header followed
    by the body.  ([byte] is Go's conversion; it is the identity on a
    content type that is a byte.) *)
Theorem written_header_fields r (pt : TLSPlaintext) (c : cipherState) (cipherp : nat)
    (padLen : Z) (header ciphertext : list Z) :
  cipherStates r !! cipherp = Some c ->
  buildRecord pt c padLen r = Ret (header, ciphertext) ->
  let d := {| fd_datagram := datagram r |} in
  len header = headerLen d
  /\ match cipher c with
     | Some a =>
         header !! 0%nat = Some (byte RecordTypeApplicationData)
         /\ frameLen d header = Ret (len (fragment pt) + 1 + padLen + Overhead a)
     | None =>
         header !! 0%nat = Some (byte (contentType pt))
         /\ frameLen d header = Ret (len (fragment pt))
     end
  /\ forall r1, incrementAt cipherp r = (r1, Ret tt) ->
       writeRecordWithPadding pt cipherp padLen r
       = (set_conn r1 (fst (conn_Write (conn r1) (header ++ ciphertext))),
          match snd (conn_Write (conn r1) (header ++ ciphertext)) with
          | Some e => Err e
          | None => Ret tt
          end).
Proof.
  intros Hc Hbuild d.
  pose proof (writeRecordWithPadding_emits r pt c cipherp padLen _ _ Hc Hbuild) as Hemit.
  unfold buildRecord in Hbuild.
  change (2 ^ 16) with 65536 in *.
  destruct (cipher c) as [a |] eqn:Hcipher.
  - apply bind_Ret_inv in Hbuild as (ct' & Henc & Hsize).
    destruct (Z.gtb_spec (len ct') maxFragmentLen) as [| Hmax]; [done |].
    injection Hsize as <- <-.
    apply encrypt_length in Henc. unfold overhead in Henc. rewrite Hcipher in Henc.
    pose proof (len_nonneg ct'). change maxFragmentLen with 16384 in Hmax.
    destruct (wireHeader_fields r RecordTypeApplicationData
                (combineSeq c (datagram r))
                (len (fragment pt) + (1 + padLen + Overhead a))) as (Hl & H0' & Hf);
      [change (2 ^ 16) with 65536; lia |].
    split; [done |]. split; [| done]. split; [done |].
    unfold d. rewrite Hf. f_equal. lia.
  - apply bind_Ret_inv in Hbuild as (ct' & Hclear & Hsize).
    destruct (Z.gtb_spec padLen 0); [done |]. injection Hclear as <-.
    destruct (Z.gtb_spec (len (fragment pt)) maxFragmentLen) as [| Hmax]; [done |].
    injection Hsize as <-.
    pose proof (len_nonneg (fragment pt)). change maxFragmentLen with 16384 in Hmax.
    destruct (wireHeader_fields r (contentType pt)
                (combineSeq c (datagram r)) (len (fragment pt))) as (Hl & H0' & Hf);
      [change (2 ^ 16) with 65536; lia |].
    done.
Qed.

(** C9: asking for padding while the write cipher is the null cipher fails
    with an error before anything else happens: the layer is returned as it
    was, so nothing went to the connection and no counter moved. *)
Theorem padding_on_cleartext_fails r (pt : TLSPlaintext) (c : cipherState) (padLen : Z) :
  cipherStates r !! rl_cipher r = Some c -> cipher c = None -> 0 < padLen ->
  WriteRecordWithPadding pt padLen r = (r, Err ErrPaddingCleartext)
  /\ conn (fst (WriteRecordWithPadding pt padLen r)) = conn r
  /\ cipherStates (fst (WriteRecordWithPadding pt padLen r)) = cipherStates r.
Proof.
  intros Hc Hnull Hpad.
  assert (WriteRecordWithPadding pt padLen r = (r, Err ErrPaddingCleartext)) as ->; [| done].
  unfold WriteRecordWithPadding, writeRecordWithPadding, buildRecord.
  rewrite Hc, Hnull.
  by destruct (Z.gtb_spec padLen 0); [| lia].
Qed.

(** *** The read path: what a call may change *)

Lemma same_but_io_refl r : same_but_io r r.
Proof. by repeat split. Qed.

Lemma same_but_io_trans r r1 r2 :
  same_but_io r r1 -> same_but_io r1 r2 -> same_but_io r r2.
Proof. unfold same_but_io. intros ? ?. intuition congruence. Qed.

Lemma same_but_io_set_conn r (c : C) : same_but_io r (set_conn r c).
Proof. by repeat split. Qed.

Lemma same_but_io_set_frame r (f : F) : same_but_io r (set_frame r f).
Proof. by repeat split. Qed.

Create HintDb io.
#[local] Hint Resolve same_but_io_refl same_but_io_set_conn same_but_io_set_frame : io.

Lemma readFrame_same_but_io (fuel : nat) :
  forall r, same_but_io r (fst (readFrame fuel r)).
Proof.
  induction fuel as [| fuel IH]; intros r; simpl readFrame; [auto with io |].
  destruct (needed (frame r) >? 0).
  - destruct (make _) as [buf | | |]; simpl; auto with io.
    destruct (conn_Read (conn r) (len buf)) as [c' [data [e |]]]; simpl; auto with io.
    destruct (len data =? 0); simpl; auto with io.
    destruct (process _) as [f' [[header body] | e]]; simpl.
    + eapply same_but_io_trans; [apply same_but_io_set_conn |].
      eapply same_but_io_trans; apply same_but_io_set_frame.
    + destruct (decide (e = AlertWouldBlock)); simpl.
      * eapply same_but_io_trans; [| apply IH].
        eapply same_but_io_trans; [apply same_but_io_set_conn |].
        eapply same_but_io_trans; apply same_but_io_set_frame.
      * eapply same_but_io_trans; [apply same_but_io_set_conn |].
        eapply same_but_io_trans; apply same_but_io_set_frame.
  - destruct (process _) as [f' [[header body] | e]]; simpl; auto with io.
    destruct (decide (e = AlertWouldBlock)); simpl; auto with io.
    eapply same_but_io_trans; [| apply IH]. auto with io.
Qed.

(** A [nextRecord] that returns an error has touched nothing but the
    connection and the frame reader. *)
Lemma nextRecord_error_same_but_io (fuel : nat) (allow : bool) r r'
    (res : option TLSPlaintext) (e : error) :
  nextRecord fuel allow r = (r', Ret (res, Some e)) -> same_but_io r r'.
Proof.
  unfold nextRecord. destruct (cachedRecord r) as [pt |].
  { intros [= <- _ _]. auto with io. }
  pose proof (readFrame_same_but_io fuel r) as Hio.
  destruct (readFrame fuel r) as [r1 [[header body] | e1 | p | ]]; simpl in Hio;
    try (by intros [= <-]).
  destruct (openFrame allow r1 (rl_cipher r) header body) as [[pt l] | e1 | p | ];
    try (by intros [= <-]).
  destruct (incrementAt l _) as [r3 [[] | e1 | p | ]]; by intros [= _].
Qed.

(** A [nextRecord] that returns a record either returns the cached one and
    changes nothing, or has cached the record it returns and advanced the
    counter of one cipher state by one. *)
Lemma nextRecord_success (fuel : nat) (allow : bool) r r' (pt : TLSPlaintext) :
  nextRecord fuel allow r = (r', Ret (Some pt, None)) ->
  (cachedRecord r = Some pt /\ r' = r)
  \/ (cachedRecord r = None /\ cachedRecord r' = Some pt
      /\ cachedError r' = cachedError r
      /\ exists (l : nat) (c : cipherState),
           cipherStates r !! l = Some c
           /\ cipherStates r' = <[l := set_seq c (uint64 (seq c + 1))]> (cipherStates r)).
Proof.
  unfold nextRecord. destruct (cachedRecord r) as [pt0 |] eqn:Hcached.
  { intros [= <- <- _]. by left. }
  pose proof (readFrame_same_but_io fuel r) as Hio.
  destruct (readFrame fuel r) as [r1 [[header body] | e1 | p | ]]; simpl in Hio;
    try (by intros [= _]).
  destruct Hio as (_ & _ & _ & Herr & _ & _ & _ & Hcs).
  destruct (openFrame allow r1 (rl_cipher r) header body) as [[pt1 l] | e1 | p | ];
    try (by intros [= _]).
  unfold incrementAt. simpl cipherStates.
  destruct (cipherStates r1 !! l) as [c |] eqn:Hl; [| by intros [= _]].
  unfold incrementSequenceNumber.
  destruct (seq c >=? Z.shiftl 1 48 - 1); [by intros [= _] |].
  intros [= <- <-]. right. simpl.
  repeat split; try done. exists l, c. by rewrite <- Hcs.
Qed.



(** A [PeekRecordType] that returns a type has a record of that type in the
    cache afterwards; it found it there, or it advanced one counter by
    one. *)
Lemma PeekRecordType_success (fuel : nat) (block : bool) :
  forall r r' (t : Z),
    PeekRecordType fuel block r = (r', Ret t) ->
    (exists pt, cachedRecord r' = Some pt /\ contentType pt = t)
    /\ cachedError r' = cachedError r
    /\ ((exists pt, cachedRecord r = Some pt) -> r' = r)
    /\ (cachedRecord r = None ->
        exists (l : nat) (c : cipherState),
          cipherStates r !! l = Some c
          /\ cipherStates r' = <[l := set_seq c (uint64 (seq c + 1))]> (cipherStates r)).
Proof.
  induction fuel as [| fuel IH]; intros r r' t; [done |].
  cbn [PeekRecordType].
  destruct (nextRecord (S fuel) false r) as [r1 o] eqn:Hnext.
  destruct o as [[[pt |] [err |]] | e1 | p |]; try (by intros [= _]).
  - apply nextRecord_error_same_but_io in Hnext as Hio.
    destruct (negb block || _); [by intros [= _] |].
    intros Hrec. apply IH in Hrec as (Hpt & Herr & Hcached & Hfresh).
    destruct Hio as (_ & _ & Hcr & Hce & _ & _ & _ & Hcs).
    unfold nextRecord in Hnext. destruct (cachedRecord r) as [pt0 |] eqn:Hr.
    + injection Hnext as <- _ _.
      repeat split; try done. intros _. apply Hcached. by exists pt0.
    + rewrite Hcr, Hcs in *. repeat split; try done; try congruence.
      by intros [? ?].
  - intros [= <- <-].
    apply nextRecord_success in Hnext as [[Hc ->] | (Hnone & Hc & Herr & Hadv)].
    + repeat split; eauto. intros Hnone. congruence.
    + repeat split; eauto. intros [? ?]. congruence.
  - apply nextRecord_error_same_but_io in Hnext as Hio.
    destruct (negb block || _); [by intros [= _] |].
    intros Hrec. apply IH in Hrec as (Hpt & Herr & Hcached & Hfresh).
    destruct Hio as (_ & _ & Hcr & Hce & _ & _ & _ & Hcs).
    unfold nextRecord in Hnext. destruct (cachedRecord r) as [pt0 |] eqn:Hr.
    + done.
    + rewrite Hcr, Hcs in *. repeat split; try done; try congruence.
      by intros [? ?].
Qed.


(** No function of [nextRecord] sets [cachedError]. *)
Lemma nextRecord_cachedError (fuel : nat) (allow : bool) r :
  cachedError (fst (nextRecord fuel allow r)) = cachedError r.
Proof.
  unfold nextRecord. destruct (cachedRecord r); [done |].
  pose proof (readFrame_same_but_io fuel r) as (_ & _ & _ & Herr & _).
  destruct (readFrame fuel r) as [r1 [[header body] | | | ]]; try done.
  destruct (openFrame _ _ _ _ _) as [[pt l] | | | ]; try done.
  unfold incrementAt. simpl cipherStates.
  destruct (_ !! l) as [c |]; [| done].
  by destruct (incrementSequenceNumber c).
Qed.


(** *** Which errors come from where *)

Lemma assert_no_Err (b : bool) (e : error) : assert b <> Err e.
Proof. by destruct b. Qed.

Lemma index_no_Err (l : list Z) (i : Z) (e : error) : index l i <> Err e.
Proof. unfold index. destruct (i <? 0); [done |]. by destruct (l !! _). Qed.

Lemma store_no_Err (l : list Z) (i v : Z) (e : error) : store l i v <> Err e.
Proof. unfold store. by destruct (_ && _). Qed.

Lemma slice_no_Err (l : list Z) (lo hi : Z) (e : error) : slice l lo hi <> Err e.
Proof. unfold slice. by destruct (_ && _). Qed.

Lemma make_no_Err (n : Z) (e : error) : make n <> Err e.
Proof. unfold make. by destruct (n <? 0). Qed.

Lemma deref_no_Err r (l : nat) (e : error) : deref r l <> Err e.
Proof. unfold deref. by destruct (_ !! l). Qed.

Lemma for_loop_no_Err {S : Type} (body : Z -> S -> outcome S) (e : error) :
  (forall i s, body i s <> Err e) ->
  forall (n : nat) (i : Z) (s : S), for_loop n i body s <> Err e.
Proof.
  intros Hbody. induction n as [| n IH]; intros i s; [done |].
  rewrite for_loop_S. intros [Hb | (s' & _ & Hrest)]%bind_Err_inv.
  - by apply Hbody in Hb.
  - by apply IH in Hrest.
Qed.

Lemma computeNonce_no_Err (c : cipherState) (sq : Z) (e : error) :
  computeNonce c sq <> Err e.
Proof.
  unfold computeNonce. intros [Hloop | (st & _ & ?)]%bind_Err_inv; [| done].
  revert Hloop. apply for_loop_no_Err. intros i [nonce s]. unfold computeNonce_step.
  intros [Hi | (old & _ & [Hs | (n' & _ & ?)]%bind_Err_inv)]%bind_Err_inv; [| | done].
  - by apply index_no_Err in Hi.
  - by apply store_no_Err in Hs.
Qed.

Lemma scanPadding_no_Err (fuel : nat) (frag : list Z) (d : Z) (e : error) :
  forall k : Z, scanPadding fuel frag d k <> Err e.
Proof.
  induction fuel as [| fuel IH]; intros k; [done |]. simpl.
  destruct (k <? d + 1); [| done].
  intros [Hi | (b & _ & Hrest)]%bind_Err_inv; [by apply index_no_Err in Hi |].
  destruct (b =? 0); [by apply IH in Hrest | done].
Qed.

(** The errors of [decrypt] are of type [DecryptError]. *)
Lemma decrypt_errors r (sq : Z) (header : list Z) (pt : TLSPlaintext) (e : error) :
  decrypt r sq header pt = Err e -> isDecryptError e = true.
Proof.
  unfold decrypt.
  intros [Ha | (_ & _ & Hd)]%bind_Err_inv; [by apply assert_no_Err in Ha |].
  apply bind_Err_inv in Hd as [Hc | (c & _ & Hd)]; [by apply deref_no_Err in Hc |].
  destruct (len (fragment pt) <? overhead c); [by injection Hd as <- |].
  apply bind_Err_inv in Hd as [Hm | (buf & _ & Hd)]; [by apply make_no_Err in Hm |].
  apply bind_Err_inv in Hd as [Hn | (nonce & _ & Hd)];
    [by apply computeNonce_no_Err in Hn |].
  apply bind_Err_inv in Hd as [Ha | (a & _ & Hd)]; [by destruct (cipher c) |].
  destruct (Open a nonce (fragment pt) header) as [plain |]; [| by injection Hd as <-].
  apply bind_Err_inv in Hd as [Hs | (padLen & _ & Hd)];
    [by apply scanPadding_no_Err in Hs |].
  apply bind_Err_inv in Hd as [Hi | (ct & _ & Hd)]; [by apply index_no_Err in Hi |].
  apply bind_Err_inv in Hd as [Hs | (frag & _ & Hd)]; [by apply slice_no_Err in Hs |].
  done.
Qed.

Lemma index_lookup (l : list Z) (n : nat) (x : Z) :
  l !! n = Some x -> index l (Z.of_nat n) = Ret x.
Proof.
  intros Hl. unfold index. destruct (Z.ltb_spec (Z.of_nat n) 0); [lia |].
  by rewrite Nat2Z.id, Hl.
Qed.

(** The version check compares bytes 1 and 2 of the header with 3 and 1. *)
Lemma validateVersion_spec (header : list Z) (h1 h2 : Z) :
  header !! 1%nat = Some h1 -> header !! 2%nat = Some h2 ->
  validateVersion header
  = if negb allowWrongVersionNumber && negb ((h1 =? 3) && (h2 =? 1))
    then Err (ErrInvalidVersion h1 h2) else Ret tt.
Proof.
  intros H1' H2'. unfold validateVersion.
  destruct allowWrongVersionNumber; [done |]. simpl negb.
  pose proof (index_lookup header 1 h1 H1') as Hi1.
  pose proof (index_lookup header 2 h2 H2') as Hi2.
  change (Z.of_nat 1) with 1 in Hi1. change (Z.of_nat 2) with 2 in Hi2.
  rewrite Hi1, Hi2.
  cbn [mbind outcome_bind andb].
  destruct (h1 =? 3); [| done]. cbn [negb mbind outcome_bind andb].
  by destruct (h2 =? 1).
Qed.

(** An invalid-version error of [openFrame] is the one of the version
    check. *)
Lemma openFrame_version_error (allow : bool) r (cipherp : nat) (header body : list Z)
    (hi lo : Z) :
  openFrame allow r cipherp header body = Err (ErrInvalidVersion hi lo) ->
  validateVersion header = Err (ErrInvalidVersion hi lo).
Proof.
  unfold openFrame.
  intros [Hi | (h0 & _ & Hd)]%bind_Err_inv; [by apply index_no_Err in Hi |].
  apply bind_Err_inv in Hd as [Hk | (_ & _ & Hd)]; [by destruct (knownRecordType h0) |].
  apply bind_Err_inv in Hd as [Hv | (_ & _ & Hd)]; [done |].
  apply bind_Err_inv in Hd as [Hi | (szhi & _ & Hd)]; [by apply index_no_Err in Hi |].
  apply bind_Err_inv in Hd as [Hi | (szlo & _ & Hd)]; [by apply index_no_Err in Hi |].
  destruct (_ >? _); [done |].
  apply bind_Err_inv in Hd as [Hm | (buf & _ & Hd)]; [by apply make_no_Err in Hm |].
  apply bind_Err_inv in Hd as [Hc | (cur & _ & Hd)]; [by apply deref_no_Err in Hc |].
  apply bind_Err_inv in Hd as [Hsel | ([sq l] & _ & Hd)].
  { destruct (datagram r); [| done].
    apply bind_Err_inv in Hsel as [Hs | (hs & _ & Hsel)]; [by apply slice_no_Err in Hs |].
    destruct (readCiphers r !! _); [| done].
    destruct (negb _); [| done]. by destruct (negb allow). }
  apply bind_Err_inv in Hd as [Hc | (sel & _ & Hd)]; [by apply deref_no_Err in Hc |].
  apply bind_Err_inv in Hd as [Hdec | (pt' & _ & Hd)].
  { destruct (cipher sel); [| done].
    apply bind_Err_inv in Hdec as [Hdec | ([pt' n] & _ & ?)]; [| done].
    by apply decrypt_errors in Hdec. }
  by destruct (_ >? _).
Qed.

(** C5 (amended): with the version check on, a frame of a recognized type
    is refused with the invalid-version error exactly when bytes 1 and 2 of
    its header are not 3 and 1, whatever version the layer was given with
    [SetVersion]; with the check off that error is never returned. *)
Theorem version_check_against_0301 (fuel : nat) (allow : bool) r r1
    (header body : list Z) (h0 h1 h2 : Z) :
  cachedRecord r = None ->
  readFrame fuel r = (r1, Ret (header, body)) ->
  header !! 0%nat = Some h0 -> knownRecordType h0 = true ->
  header !! 1%nat = Some h1 -> header !! 2%nat = Some h2 ->
  ((exists hi lo,
      snd (nextRecord fuel allow r) = Ret (None, Some (ErrInvalidVersion hi lo)))
   <-> allowWrongVersionNumber = false /\ (h1 <> 3 \/ h2 <> 1))
  /\ (allowWrongVersionNumber = false /\ (h1 <> 3 \/ h2 <> 1) ->
      nextRecord fuel allow r = (r1, Ret (None, Some (ErrInvalidVersion h1 h2)))).
Proof.
  intros Hcached Hframe H0' Hknown H1' H2'.
  pose proof (validateVersion_spec header h1 h2 H1' H2') as Hv.
  assert (allowWrongVersionNumber = false /\ (h1 <> 3 \/ h2 <> 1) ->
          nextRecord fuel allow r = (r1, Ret (None, Some (ErrInvalidVersion h1 h2))))
    as Hrefuse.
  { intros [Hcheck Hbad]. unfold nextRecord. rewrite Hcached, Hframe.
    unfold openFrame.
    pose proof (index_lookup header 0 h0 H0') as Hi0.
    change (Z.of_nat 0) with 0 in Hi0.
    rewrite Hi0, Hv, Hcheck. cbn [mbind outcome_bind]. rewrite Hknown.
    cbn [mbind outcome_bind negb andb].
    assert ((h1 =? 3) && (h2 =? 1) = false) as ->; [| done].
    apply andb_false_iff. rewrite !Z.eqb_neq. tauto. }
  split; [| done]. split.
  - intros (hi & lo & Hrun). unfold nextRecord in Hrun. rewrite Hcached, Hframe in Hrun.
    destruct (openFrame allow r1 (rl_cipher r) header body) as [[pt l] | e | p |] eqn:Hopen.
    + destruct (incrementAt l _) as [r3 [[] | | | ]]; done.
    + injection Hrun as ->. apply openFrame_version_error in Hopen.
      rewrite Hv in Hopen.
      destruct allowWrongVersionNumber; [done |]. split; [done |].
      destruct (Z.eqb_spec h1 3), (Z.eqb_spec h2 1); try done; tauto.
    + done.
    + done.
  - intros Hbad. exists h1, h2. by rewrite Hrefuse.
Qed.

End Properties.

(** ** The test AEAD keeps the contract *)

Lemma map_lxor_involutive (k : Z) (l : list Z) : map (Z.lxor k) (map (Z.lxor k) l) = l.
Proof.
  induction l as [| x l IH]; simpl; [done |].
  by rewrite IH, <- Z.lxor_assoc, Z.lxor_nilpotent, Z.lxor_0_l.
Qed.

Lemma testAEAD_ok (k : Z) : AEAD_ok (testAEAD k).
Proof.
  split; simpl.
  - lia.
  - intros nonce pt ad. unfold testSeal, len.
    rewrite length_app, length_map. simpl. lia.
  - intros nonce pt ad. unfold testOpen, testSeal.
    rewrite last_snoc, length_app, length_map. simpl.
    replace (length pt + 1 - 1)%nat with (length (map (Z.lxor k) pt))
      by (rewrite length_map; lia).
    by rewrite take_app_length, map_lxor_involutive, Z.eqb_refl.
Qed.

(** ** The theorems at concrete inputs *)

(** C4 at a counter of 5. *)
Lemma incrementSequenceNumber_witness :
  incrementSequenceNumber (mkCipherState 1 12 5 iv12 None)
  = (mkCipherState 1 12 6 iv12 None, Ret tt).
Proof.
  refine (proj1 (incrementSequenceNumber_spec (mkCipherState 1 12 5 iv12 None) _) _);
    simpl; lia.
Defined.

(** C6 at the twelve-byte IV 00..0b and the sequence number 258. *)
Lemma computeNonce_witness :
  computeNonce (mkCipherState 1 12 0 iv12 None) 258
  = Ret [0; 1; 2; 3; 4; 5; 6; 7; 8; 9; 11; 9]
  /\ computeNonce (mkCipherState 1 12 0 iv12 None) 258
     <> computeNonce (mkCipherState 1 12 0 iv12 None) 259.
Proof.
  assert (8 <= len (iv (mkCipherState 1 12 0 iv12 None))) as Hlen by (vm_compute; discriminate).
  destruct (computeNonce_spec (mkCipherState 1 12 0 iv12 None) 258 Hlen)
    as (Hval & _ & Hinj).
  split; [exact Hval | apply Hinj; lia].
Defined.

(** The end-to-end scenarios of the spec on the model: "hello" written
    under a fresh AEAD state with IV 00..0b at sequence 0 gives 5 + 1 + 0 +
    overhead bytes after the header and reads back as "hello",
    ApplicationData, sequence 0; 16 bytes of padding add exactly 16 bytes
    and change nothing else; one changed byte gives the decrypt error. *)
Example end_to_end_hello :
  len (lastWritten (conn (fst (WriteRecord (H1 := strictPackage) hello keyedWriter))))
  = recordHeaderLenTLS + (5 + 1 + 0 + Overhead (testAEAD 7))
  /\ snd (ReadRecord (H1 := strictPackage) 5
            (keyedReader
               (lastWritten (conn (fst (WriteRecord (H1 := strictPackage) hello keyedWriter))))))
     = Ret (Some {| contentType := 23; pt_epoch := 1; pt_seq := 0;
                    fragment := [104; 101; 108; 108; 111] |}, None).
Proof. split; reflexivity. Qed.

Example end_to_end_padding :
  len (lastWritten
         (conn (fst (WriteRecordWithPadding (H1 := strictPackage) hello 16 keyedWriter))))
  = len (lastWritten (conn (fst (WriteRecord (H1 := strictPackage) hello keyedWriter)))) + 16
  /\ snd (ReadRecord (H1 := strictPackage) 5
            (keyedReader
               (lastWritten
                  (conn (fst (WriteRecordWithPadding (H1 := strictPackage) hello 16
                                keyedWriter))))))
     = Ret (Some {| contentType := 23; pt_epoch := 1; pt_seq := 0;
                    fragment := [104; 101; 108; 108; 111] |}, None).
Proof. split; reflexivity. Qed.

Example end_to_end_corrupted :
  snd (ReadRecord (H1 := strictPackage) 5 (keyedReader corruptedRecord))
  = Ret (None, Some DecryptAEADFailed).
Proof. reflexivity. Qed.


(** C1 at a record whose payload is three zero bytes. *)
Lemma decrypt_all_zero_payload_witness :
  decrypt (keyedReader []) 0 zeroHeader
    {| contentType := 23; pt_epoch := 0; pt_seq := 0; fragment := zeroSealed |}
  = Panic IndexOutOfRange.
Proof.
  apply (decrypt_all_zero_payload_panics (keyedReader [])
           (mkCipherState 1 12 0 iv12 (Some (testAEAD 7))) (testAEAD 7) 0 zeroHeader
           _ iv12 [0; 0; 0]).
  - reflexivity.
  - reflexivity.
  - reflexivity.
  - vm_compute. discriminate.
  - reflexivity.
  - reflexivity.
  - repeat constructor.
Defined.

(** C1 end to end: the same record read from the wire. *)
Example read_all_zero_payload_panics :
  snd (ReadRecord (H1 := strictPackage) 5 (keyedReader (zeroHeader ++ zeroSealed)))
  = Panic IndexOutOfRange.
Proof. reflexivity. Qed.

(** C7 at "hello" with two bytes of padding under [testAEAD 7]. *)
Lemma written_header_fields_witness :
  len [23; 3; 1; 0; 9] = headerLen streamFraming
  /\ ([23; 3; 1; 0; 9] !! 0%nat = Some (byte 23)
      /\ frameLen streamFraming [23; 3; 1; 0; 9]
         = Ret (len (fragment hello) + 1 + 2 + Overhead (testAEAD 7)))
  /\ forall r1, incrementAt 1 keyedWriter = (r1, Ret tt) ->
       writeRecordWithPadding (H1 := strictPackage) hello 1 2 keyedWriter
       = (set_conn r1 (fst (conn_Write (conn r1)
                              ([23; 3; 1; 0; 9] ++ [111; 98; 107; 107; 104; 16; 7; 7; 152]))),
          match snd (conn_Write (conn r1)
                       ([23; 3; 1; 0; 9] ++ [111; 98; 107; 107; 104; 16; 7; 7; 152])) with
          | Some e => Err e
          | None => Ret tt
          end).
Proof.
  apply (written_header_fields (H1 := strictPackage) keyedWriter hello
           (mkCipherState 1 12 0 iv12 (Some (testAEAD 7))) 1 2
           [23; 3; 1; 0; 9] [111; 98; 107; 107; 104; 16; 7; 7; 152]).
  - reflexivity.
  - reflexivity.
Defined.

(** C9 at a writer that was never keyed, asked for two bytes of padding. *)
Lemma padding_on_cleartext_witness :
  WriteRecordWithPadding (H1 := strictPackage) hello 2 clearWriter
  = (clearWriter, Err ErrPaddingCleartext)
  /\ conn (fst (WriteRecordWithPadding (H1 := strictPackage) hello 2 clearWriter))
     = conn clearWriter
  /\ cipherStates (fst (WriteRecordWithPadding (H1 := strictPackage) hello 2 clearWriter))
     = cipherStates clearWriter.
Proof.
  apply (padding_on_cleartext_fails (H1 := strictPackage) clearWriter hello
           newCipherStateNull 2).
  - reflexivity.
  - reflexivity.
  - lia.
Defined.




(** C5, against the claim: the layer was given version 0x0303 with
    [SetVersion], the header carries 0x0303, the check is on, and the record
    is refused for its version; a header carrying 0x0301 is accepted by the
    same layer. *)
Lemma configured_version_is_refused :
  version (clearReader 771 [23; 3; 3; 0; 1; 65]) = 771
  /\ snd (ReadRecord (H1 := strictPackage) 5 (clearReader 771 [23; 3; 3; 0; 1; 65]))
     = Ret (None, Some (ErrInvalidVersion 3 3))
  /\ snd (ReadRecord (H1 := strictPackage) 5 (clearReader 771 [23; 3; 1; 0; 1; 65]))
     = Ret (Some {| contentType := 23; pt_epoch := 0; pt_seq := 0; fragment := [65] |},
            None).
Proof. repeat split; reflexivity. Qed.

(** C5 (amended) at that reader and the header carrying 0x0303. *)
Lemma version_check_witness :
  nextRecord (H1 := strictPackage) 5 false (clearReader 771 [23; 3; 3; 0; 1; 65])
  = (fst (readFrame 5 (clearReader 771 [23; 3; 3; 0; 1; 65])),
     Ret (None, Some (ErrInvalidVersion 3 3))).
Proof.
  refine (proj2 (version_check_against_0301 (H1 := strictPackage) 5 false
                   (clearReader 771 [23; 3; 3; 0; 1; 65]) _ [23; 3; 3; 0; 1] [65]
                   23 3 3 _ _ _ _ _ _) _).
  - reflexivity.
  - reflexivity.
  - reflexivity.
  - reflexivity.
  - reflexivity.
  - reflexivity.
  - split; [reflexivity | right; lia].
Defined.

(** C2 (what the code does): the datagram sealed under epoch 2 arrives when
    epoch 3 is current and epoch 2 is still in the map of read ciphers.
    [ReadRecord] returns would-block; [ReadRecordAnyEpoch] selects the
    epoch-2 state and then decrypts with the current, epoch-3 state, so it
    returns the decrypt error and no record.  While epoch 2 is current the
    same datagram is read back as "hello".  (The version check is off: the
    DTLS wire version is not 0x0301.) *)
Theorem old_epoch_record_is_not_decrypted :
  readCiphers epoch3Reader !! 2 = Some 1%nat
  /\ Epoch epoch3Reader = Ret 3
  /\ snd (ReadRecord (H1 := laxPackage) 5 epoch3Reader) = Ret (None, Some AlertWouldBlock)
  /\ snd (ReadRecordAnyEpoch (H1 := laxPackage) 5 epoch3Reader)
     = Ret (None, Some DecryptAEADFailed)
  /\ snd (ReadRecord (H1 := laxPackage) 5
            (fst (Rekey 2 testFactory [7] iv12
                    (NewRecordLayerDTLS (delivering epoch2Datagram)
                       (newFrameReader datagramFraming) DirectionRead))))
     = Ret (Some {| contentType := 23; pt_epoch := 2; pt_seq := 2 * 2 ^ 48;
                    fragment := [104; 101; 108; 108; 111] |}, None).
Proof. repeat split; reflexivity. Qed.

(** ** Further properties of the record layer *)

Section Coverage.

Context {F C : Type} `{FrameReader F} `{Transport C} `{Package}.

Implicit Types r rw rr : DefaultRecordLayer F C.

Lemma copy_zeros_same_length (body : list Z) :
  copy (replicate (length body) 0) body = body.
Proof. apply copy_replicate. Qed.

(** Once the header is accepted, [openFrame] is at the choice of the cipher
    state. *)
Lemma openFrame_accepted (allow : bool) r (cipherp : nat) (header body : list Z)
    (h0 size : Z) (cur : cipherState) :
  acceptedHeader header h0 size ->
  cipherStates r !! cipherp = Some cur ->
  openFrame allow r cipherp header body
  = (let pt := {| contentType := h0; pt_epoch := 0; pt_seq := 0;
                  fragment := copy (replicate (Z.to_nat size) 0) body |} in
     '(sq, cipherp') ←
       (if datagram r then
          hs ← slice header 3 11;
          let sq := decodeUint hs 8 in
          let ep := Z.shiftr sq 48 in
          match readCiphers r !! ep with
          | None => Err AlertWouldBlock
          | Some c =>
              if negb (ep =? epoch cur) then
                if negb allow then Err AlertWouldBlock else Ret (sq, c)
              else Ret (sq, cipherp)
          end
        else Ret (seq cur, cipherp));
     sel ← deref r cipherp';
     pt ← match cipher sel with
           | Some _ => '(pt', _) ← decrypt r sq header pt; Ret pt'
           | None => Ret pt
           end;
     let pt := {| contentType := contentType pt; pt_epoch := epoch sel;
                  pt_seq := pt_seq pt; fragment := fragment pt |} in
     if len (fragment pt) >? maxFragmentLen then Err ErrPlaintextTooBig
     else Ret (pt, cipherp')).
Proof.
  intros (Hh0 & Hknown & Hver & (hi & lo & Hhi & Hlo & ->) & Hsize) Hcur.
  unfold openFrame.
  rewrite Hh0. cbn [mbind outcome_bind]. rewrite Hknown, Hver.
  cbn [mbind outcome_bind]. rewrite Hhi, Hlo. cbn [mbind outcome_bind].
  destruct (Z.gtb_spec (Z.shiftl hi 8 + lo) (maxFragmentLen + 256)); [lia |].
  unfold make. destruct (Z.ltb_spec (Z.shiftl hi 8 + lo) 0); [lia |].
  cbn [mbind outcome_bind]. unfold deref. rewrite Hcur. reflexivity.
Qed.

(** [nextRecord] on an empty cache, once the frame loop has produced a
    frame. *)
Lemma nextRecord_on_frame (fuel : nat) (allow : bool) r r1 (header body : list Z) :
  cachedRecord r = None ->
  readFrame fuel r = (r1, Ret (header, body)) ->
  same_but_io r r1
  /\ nextRecord fuel allow r
     = match openFrame allow r1 (rl_cipher r) header body with
       | Ret (pt, cipherp') =>
           let '(r3, o) := incrementAt cipherp' (set_cached r1 (Some pt) (cachedError r1)) in
           (r3, o;; Ret (Some pt, None))
       | Err e => (r1, Ret (None, Some e))
       | Panic p => (r1, Panic p)
       | OutOfFuel => (r1, OutOfFuel)
       end.
Proof.
  intros Hcached Hframe. split.
  - pose proof (readFrame_same_but_io fuel r) as Hio. by rewrite Hframe in Hio.
  - unfold nextRecord. by rewrite Hcached, Hframe.
Qed.

(** In datagram mode the epoch is read off the sequence field of the
    header.  A record of an epoch that is not in the map of read ciphers is
    answered with would-block, with or without the opt-in for old epochs;
    a record of an epoch other than the current one is answered with
    would-block by a read without the opt-in, whatever the map holds.
    Nothing but the connection and the frame reader has changed. *)
Theorem datagram_epoch_gate (fuel : nat) (allow : bool) r r1 (header body hs : list Z)
    (h0 size : Z) (cur : cipherState) :
  cachedRecord r = None -> datagram r = true ->
  cipherStates r !! rl_cipher r = Some cur ->
  readFrame fuel r = (r1, Ret (header, body)) ->
  acceptedHeader header h0 size ->
  slice header 3 11 = Ret hs ->
  same_but_io r r1
  /\ (readCiphers r !! Z.shiftr (decodeUint hs 8) 48 = None ->
      nextRecord fuel allow r = (r1, Ret (None, Some AlertWouldBlock)))
  /\ (Z.shiftr (decodeUint hs 8) 48 <> epoch cur ->
      nextRecord fuel false r = (r1, Ret (None, Some AlertWouldBlock))).
Proof.
  intros Hcached Hdg Hcur Hframe Hacc Hs.
  destruct (nextRecord_on_frame fuel allow r r1 header body Hcached Hframe) as [Hio Hnext].
  destruct (nextRecord_on_frame fuel false r r1 header body Hcached Hframe) as [_ Hnext'].
  pose proof Hio as (_ & _ & _ & _ & _ & Hrc & Hdg1 & Hcs).
  split; [done |]. split.
  - intros Hnone. rewrite Hnext, (openFrame_accepted _ _ _ _ _ h0 size cur)
      by (done || congruence).
    cbv zeta. rewrite Hdg1, Hdg, Hs. cbn [mbind outcome_bind].
    by rewrite Hrc, Hnone.
  - intros Hne. rewrite Hnext', (openFrame_accepted _ _ _ _ _ h0 size cur)
      by (done || congruence).
    cbv zeta. rewrite Hdg1, Hdg, Hs. cbn [mbind outcome_bind].
    destruct (readCiphers r1 !! _); [| done].
    by destruct (Z.eqb_spec (Z.shiftr (decodeUint hs 8) 48) (epoch cur)).
Qed.

Lemma incrementAt_advances r (l : nat) (c : cipherState) :
  cipherStates r !! l = Some c -> seq c < 2 ^ 48 - 1 ->
  incrementAt l r
  = (set_cipherStates r (<[l := set_seq c (uint64 (seq c + 1))]> (cipherStates r)), Ret tt).
Proof.
  intros Hl Hseq. unfold incrementAt, incrementSequenceNumber. rewrite Hl.
  change (Z.shiftl 1 48) with (2 ^ 48).
  by destruct (Z.geb_spec (seq c) (2 ^ 48 - 1)); [lia |].
Qed.

(** A stream record read while no AEAD is installed: the body comes back
    verbatim with the type of the header and the epoch of the cipher state;
    its [seq] field is 0 whatever the counter is (only [decrypt] sets it);
    the record is cached and the counter moves by one. *)
Theorem stream_cleartext_read (fuel : nat) (allow : bool) r r1 (header body : list Z)
    (h0 : Z) (cur : cipherState) :
  cachedRecord r = None -> datagram r = false ->
  cipherStates r !! rl_cipher r = Some cur -> cipher cur = None ->
  seq cur < 2 ^ 48 - 1 ->
  readFrame fuel r = (r1, Ret (header, body)) ->
  acceptedHeader header h0 (len body) ->
  len body <= maxFragmentLen ->
  let pt := {| contentType := h0; pt_epoch := epoch cur; pt_seq := 0; fragment := body |} in
  nextRecord fuel allow r
  = (set_cipherStates (set_cached r1 (Some pt) (cachedError r))
       (<[rl_cipher r := set_seq cur (uint64 (seq cur + 1))]> (cipherStates r)),
     Ret (Some pt, None)).
Proof.
  intros Hcached Hdg Hcur Hnull Hseq Hframe Hacc Hmax pt.
  destruct (nextRecord_on_frame fuel allow r r1 header body Hcached Hframe) as [Hio Hnext].
  pose proof Hio as (_ & _ & _ & Hce & _ & Hrc & Hdg1 & Hcs).
  rewrite Hnext, (openFrame_accepted _ _ _ _ _ h0 (len body) cur) by (done || congruence).
  cbv zeta. rewrite Hdg1, Hdg. cbn [mbind outcome_bind]. unfold deref.
  rewrite Hcs, Hcur. cbn [mbind outcome_bind]. rewrite Hnull.
  cbn [mbind outcome_bind fragment contentType pt_seq].
  replace (Z.to_nat (len body)) with (length body) by (unfold len; lia).
  rewrite copy_replicate.
  destruct (Z.gtb_spec (len body) maxFragmentLen); [lia |].
  rewrite (incrementAt_advances _ _ cur) by (simpl; congruence || done).
  simpl. by rewrite Hce, Hcs.
Qed.

(** Datagram mode with the opt-in for old epochs: a record of an older epoch
    whose cipher state has no AEAD (the cleartext epoch after a rekey) is
    returned verbatim under that state, and it is that state's counter that
    moves; the current cipher state stays as it is. *)
Theorem old_cleartext_epoch_read (fuel : nat) r r1 (header body hs : list Z)
    (h0 : Z) (cur sel : cipherState) (l : nat) :
  cachedRecord r = None -> datagram r = true ->
  cipherStates r !! rl_cipher r = Some cur ->
  readFrame fuel r = (r1, Ret (header, body)) ->
  acceptedHeader header h0 (len body) -> len body <= maxFragmentLen ->
  slice header 3 11 = Ret hs ->
  Z.shiftr (decodeUint hs 8) 48 <> epoch cur ->
  readCiphers r !! Z.shiftr (decodeUint hs 8) 48 = Some l ->
  cipherStates r !! l = Some sel -> cipher sel = None -> seq sel < 2 ^ 48 - 1 ->
  l <> rl_cipher r ->
  let pt := {| contentType := h0; pt_epoch := epoch sel; pt_seq := 0; fragment := body |} in
  snd (ReadRecordAnyEpoch fuel r) = Ret (Some pt, None)
  /\ cipherStates (fst (ReadRecordAnyEpoch fuel r))
     = <[l := set_seq sel (uint64 (seq sel + 1))]> (cipherStates r)
  /\ cipherStates (fst (ReadRecordAnyEpoch fuel r)) !! rl_cipher r = Some cur
  /\ cachedRecord (fst (ReadRecordAnyEpoch fuel r)) = None.
Proof.
  intros Hcached Hdg Hcur Hframe Hacc Hmax Hs Hne Hmap Hl Hnull Hseq Hother pt.
  destruct (nextRecord_on_frame fuel true r r1 header body Hcached Hframe) as [Hio Hnext].
  pose proof Hio as (_ & _ & _ & Hce & _ & Hrc & Hdg1 & Hcs).
  assert (nextRecord fuel true r
          = (set_cipherStates (set_cached r1 (Some pt) (cachedError r))
               (<[l := set_seq sel (uint64 (seq sel + 1))]> (cipherStates r)),
             Ret (Some pt, None))) as Hrun.
  { rewrite Hnext, (openFrame_accepted _ _ _ _ _ h0 (len body) cur) by (done || congruence).
    cbv zeta. rewrite Hdg1, Hdg, Hs. cbn [mbind outcome_bind].
    rewrite Hrc, Hmap.
    destruct (Z.eqb_spec (Z.shiftr (decodeUint hs 8) 48) (epoch cur)); [done |].
    cbn [negb mbind outcome_bind]. unfold deref.
    rewrite Hcs, Hl. cbn [mbind outcome_bind]. rewrite Hnull.
    cbn [mbind outcome_bind fragment contentType pt_seq].
    replace (Z.to_nat (len body)) with (length body) by (unfold len; lia).
    rewrite copy_replicate.
    destruct (Z.gtb_spec (len body) maxFragmentLen); [lia |].
    rewrite (incrementAt_advances _ _ sel) by (simpl; congruence || done).
    simpl. by rewrite Hce, Hcs. }
  unfold ReadRecordAnyEpoch. rewrite Hrun. simpl.
  repeat split; try done. by rewrite list_lookup_insert_ne.
Qed.

(** What [nextRecord] refuses in a frame: a first byte that is none of the
    four record types (before any other check), a declared size above
    2^14 + 256, and, with no AEAD installed, a declared size above 2^14.
    Each is returned as an error and leaves everything but the connection
    and the frame reader as it was. *)
Theorem read_validation_errors (fuel : nat) (allow : bool) r r1 (header body : list Z)
    (h0 : Z) :
  cachedRecord r = None ->
  readFrame fuel r = (r1, Ret (header, body)) ->
  index header 0 = Ret h0 ->
  same_but_io r r1
  /\ (knownRecordType h0 = false ->
      nextRecord fuel allow r = (r1, Ret (None, Some (ErrUnknownContentType h0))))
  /\ (forall hi lo,
        knownRecordType h0 = true -> validateVersion header = Ret tt ->
        index header (len header - 2) = Ret hi ->
        index header (len header - 1) = Ret lo ->
        maxFragmentLen + 256 < Z.shiftl hi 8 + lo ->
        nextRecord fuel allow r = (r1, Ret (None, Some ErrCiphertextTooBig)))
  /\ (forall size cur,
        acceptedHeader header h0 size -> maxFragmentLen < size ->
        datagram r = false ->
        cipherStates r !! rl_cipher r = Some cur -> cipher cur = None ->
        nextRecord fuel allow r = (r1, Ret (None, Some ErrPlaintextTooBig))).
Proof.
  intros Hcached Hframe Hh0.
  destruct (nextRecord_on_frame fuel allow r r1 header body Hcached Hframe) as [Hio Hnext].
  pose proof Hio as (_ & _ & _ & Hce & _ & Hrc & Hdg1 & Hcs).
  split; [done |]. split; [| split].
  - intros Hunknown. rewrite Hnext. unfold openFrame.
    rewrite Hh0. cbn [mbind outcome_bind]. by rewrite Hunknown.
  - intros hi lo Hknown Hver Hhi Hlo Hbig. rewrite Hnext. unfold openFrame.
    rewrite Hh0. cbn [mbind outcome_bind]. rewrite Hknown, Hver.
    cbn [mbind outcome_bind]. rewrite Hhi, Hlo. cbn [mbind outcome_bind].
    by destruct (Z.gtb_spec (Z.shiftl hi 8 + lo) (maxFragmentLen + 256)); [| lia].
  - intros size cur Hacc Hbig Hdg Hcur Hnull.
    rewrite Hnext, (openFrame_accepted _ _ _ _ _ h0 size cur) by (done || congruence).
    cbv zeta. rewrite Hdg1, Hdg. cbn [mbind outcome_bind]. unfold deref.
    rewrite Hcs, Hcur. cbn [mbind outcome_bind]. rewrite Hnull.
    cbn [mbind outcome_bind fragment]. rewrite len_copy, len_replicate.
    destruct Hacc as (_ & _ & _ & _ & Hsize).
    by destruct (Z.gtb_spec (Z.of_nat (Z.to_nat size)) maxFragmentLen); [| lia].
Qed.

(** What [nextRecord] makes of the connection when the frame reader wants
    input: an error of [Read] is returned as it is, and a read of zero bytes
    is would-block.  In both cases the frame reader is not touched. *)
Theorem transport_read_outcomes (fuel : nat) (allow : bool) r (c' : C) (data : list Z)
    (err : option error) :
  cachedRecord r = None -> 0 < needed (frame r) ->
  conn_Read (conn r) (defaultReadLen (details (frame r))) = (c', (data, err)) ->
  (forall e, err = Some e ->
     nextRecord (S fuel) allow r = (set_conn r c', Ret (None, Some e)))
  /\ (err = None -> data = [] ->
      nextRecord (S fuel) allow r = (set_conn r c', Ret (None, Some AlertWouldBlock))).
Proof.
  intros Hcached Hneeded Hread.
  assert (make (headerLen (details (frame r)) + maxFragmentLen)
          = Ret (replicate (Z.to_nat (defaultReadLen (details (frame r)))) 0)) as Hmake.
  { unfold make, defaultReadLen, headerLen.
    by destruct (fd_datagram (details (frame r))). }
  assert (len (replicate (Z.to_nat (defaultReadLen (details (frame r)))) 0)
          = defaultReadLen (details (frame r))) as Hlen.
  { rewrite len_replicate. unfold defaultReadLen, headerLen.
    by destruct (fd_datagram (details (frame r))). }
  split.
  - intros e ->. unfold nextRecord. rewrite Hcached. cbn [readFrame].
    destruct (Z.gtb_spec (needed (frame r)) 0); [| lia].
    by rewrite Hmake, Hlen, Hread.
  - intros -> ->. unfold nextRecord. rewrite Hcached. cbn [readFrame].
    destruct (Z.gtb_spec (needed (frame r)) 0); [| lia].
    by rewrite Hmake, Hlen, Hread.
Qed.

(** A record seen by [PeekRecordType] is the one the next [ReadRecord]
    returns: the read takes it from the cache, empties the cache, and moves
    no counter and touches neither connection nor frame reader. *)
Theorem peek_then_read (fuel fuel' : nat) (block : bool) r r1 (t : Z) :
  cachedError r = None ->
  PeekRecordType fuel block r = (r1, Ret t) ->
  exists pt : TLSPlaintext,
    contentType pt = t
    /\ ReadRecord fuel' r1 = (set_cached r1 None None, Ret (Some pt, None)).
Proof.
  intros Herr Hpeek.
  apply PeekRecordType_success in Hpeek as ((pt & Hpt & Hty) & Herr1 & _).
  exists pt. split; [done |].
  unfold ReadRecord, nextRecord. by rewrite Hpt, Herr1, Herr.
Qed.

(** No function assigns anything but nil to [cachedError], so from a state
    without a cached error [nextRecord] returns a record or an error and
    never both, and the state after it has no cached error either. *)
Theorem record_or_error_never_both (fuel : nat) (allow : bool) r r'
    (res : option TLSPlaintext) (err : option error) :
  cachedError r = None ->
  nextRecord fuel allow r = (r', Ret (res, err)) ->
  cachedError r' = None
  /\ ((exists pt, res = Some pt /\ err = None) \/ (res = None /\ exists e, err = Some e)).
Proof.
  intros Herr Hrun.
  pose proof (nextRecord_cachedError fuel allow r) as Hce.
  rewrite Hrun in Hce. simpl in Hce. split; [congruence |].
  unfold nextRecord in Hrun. destruct (cachedRecord r) as [pt |].
  { injection Hrun as <- <- <-. left. exists pt. by rewrite Herr. }
  destruct (readFrame fuel r) as [r1 [[header body] | e | p | ]]; try done.
  - destruct (openFrame allow r1 (rl_cipher r) header body) as [[pt l] | e | p | ];
      try done.
    + destruct (incrementAt l _) as [r3 [[] | e | p | ]]; try done.
      injection Hrun as <- <- <-. left. by exists pt.
    + injection Hrun as <- <- <-. right. split; [done | by exists e].
  - injection Hrun as <- <- <-. right. split; [done | by exists e].
Qed.

(** *** Writing, and writing then reading *)


Lemma buildRecord_cleartext r (pt : TLSPlaintext) (c : cipherState) (padLen : Z) :
  cipher c = None -> padLen <= 0 -> len (fragment pt) <= maxFragmentLen ->
  buildRecord pt c padLen r
  = Ret (wireHeader r (contentType pt) (combineSeq c (datagram r)) (len (fragment pt)),
         fragment pt).
Proof.
  intros Hc Hpad Hlen. unfold buildRecord. rewrite Hc.
  destruct (Z.gtb_spec padLen 0); [lia |]. cbn [mbind outcome_bind].
  by destruct (Z.gtb_spec (len (fragment pt)) maxFragmentLen); [lia |].
Qed.



Lemma byte_small (x : Z) : 0 <= x < 256 -> byte x = x.
Proof. intros Hx. unfold byte. by apply Z.mod_small. Qed.

Lemma knownRecordType_ApplicationData : knownRecordType RecordTypeApplicationData = true.
Proof. unfold knownRecordType. rewrite Z.eqb_refl. by rewrite !orb_true_r. Qed.



(** A record that was built is written with one [Write] of header and body,
    and the sequence number is consumed before that [Write]: the counter
    has moved by one whether the connection reports an error or not. *)
Theorem write_consumes_sequence_number r (pt : TLSPlaintext) (c : cipherState)
    (cipherp : nat) (padLen : Z) (header ciphertext : list Z) (c' : C)
    (err : option error) :
  cipherStates r !! cipherp = Some c -> seq c < 2 ^ 48 - 1 ->
  buildRecord pt c padLen r = Ret (header, ciphertext) ->
  conn_Write (conn r) (header ++ ciphertext) = (c', err) ->
  writeRecordWithPadding pt cipherp padLen r
  = (set_conn
       (set_cipherStates r (<[cipherp := set_seq c (uint64 (seq c + 1))]> (cipherStates r)))
       c',
     match err with
     | Some e => Err e
     | None => Ret tt
     end).
Proof.
  intros Hc Hseq Hbuild Hwrite.
  rewrite (writeRecordWithPadding_emits r pt c cipherp padLen header ciphertext Hc Hbuild
             _ (incrementAt_advances r cipherp c Hc Hseq)).
  simpl conn. by rewrite Hwrite.
Qed.

(** At the counter limit a write panics after the record has been built and
    before anything is handed to the connection; no counter has moved. *)
Theorem write_at_counter_limit_panics r (pt : TLSPlaintext) (c : cipherState)
    (cipherp : nat) (padLen : Z) (header ciphertext : list Z) :
  cipherStates r !! cipherp = Some c -> 2 ^ 48 - 1 <= seq c ->
  buildRecord pt c padLen r = Ret (header, ciphertext) ->
  snd (writeRecordWithPadding pt cipherp padLen r) = Panic SequenceWraparound
  /\ conn (fst (writeRecordWithPadding pt cipherp padLen r)) = conn r
  /\ cipherStates (fst (writeRecordWithPadding pt cipherp padLen r)) = cipherStates r.
Proof.
  intros Hc Hseq Hbuild. unfold writeRecordWithPadding, incrementAt.
  rewrite Hc, Hbuild. unfold incrementSequenceNumber.
  change (Z.shiftl 1 48) with (2 ^ 48).
  destruct (Z.geb_spec (seq c) (2 ^ 48 - 1)); [| lia]. simpl.
  repeat split. by apply list_insert_id.
Qed.


Lemma buildRecord_header r (pt : TLSPlaintext) (c : cipherState) (padLen : Z)
    (header body : list Z) :
  buildRecord pt c padLen r = Ret (header, body) ->
  exists ct length : Z,
    header = wireHeader r ct (combineSeq c (datagram r)) length
    /\ (ct = contentType pt \/ ct = RecordTypeApplicationData).
Proof.
  unfold buildRecord. intros Hbuild.
  destruct (cipher c) as [a |];
    apply bind_Ret_inv in Hbuild as (ct' & _ & Hsize);
    destruct (len ct' >? maxFragmentLen); try done;
    injection Hsize as <- _; eauto.
Qed.

(** The version set with [SetVersion] is what a stream layer writes in bytes
    1 and 2 of every header, in the clear and under an AEAD.  Read back by
    a layer of this package while the version check is on, such a record is
    refused with "invalid version" as soon as the version set is not 0x0301,
    whatever the reader's own version is. *)
Theorem SetVersion_then_read (fuel : nat) (allow : bool) rw rr rr1 (v : Z)
    (pt : TLSPlaintext) (c : cipherState) (padLen : Z) (header body : list Z) :
  datagram rw = false -> 0 <= v < 2 ^ 16 ->
  buildRecord pt c padLen (SetVersion v rw) = Ret (header, body) ->
  index header 1 = Ret (Z.shiftr v 8) /\ index header 2 = Ret (Z.land v 255)
  /\ (allowWrongVersionNumber = false -> v <> 769 ->
      Forall (fun t => 0 <= t < 256)
        [RecordTypeAlert; RecordTypeHandshake; RecordTypeApplicationData; RecordTypeAck] ->
      knownRecordType (contentType pt) = true ->
      cachedRecord rr = None ->
      readFrame fuel rr = (rr1, Ret (header, body)) ->
      nextRecord fuel allow rr
      = (rr1, Ret (None, Some (ErrInvalidVersion (Z.shiftr v 8) (Z.land v 255))))).
Proof.
  intros Hdg Hv Hbuild.
  apply buildRecord_header in Hbuild as (ct & length & -> & Hct).
  unfold wireHeader, SetVersion. cbn [datagram set_version version]. rewrite Hdg.
  cbn [negb].
  assert (byte (Z.shiftr v 8) = Z.shiftr v 8) as Hhi.
  { apply byte_small. rewrite Z.shiftr_div_pow2 by lia. change (2 ^ 8) with 256.
    change (2 ^ 16) with 65536 in Hv.
    split; [apply Z.div_pos; lia | apply Z.div_lt_upper_bound; lia]. }
  assert (byte (Z.land v 255) = Z.land v 255) as Hlo.
  { apply byte_small. change 255 with (Z.ones 8). rewrite Z.land_ones by lia.
    apply Z.mod_pos_bound. lia. }
  rewrite Hhi, Hlo. split; [done |]. split; [done |].
  intros Hstrict Hne Htypes Hknown Hcached Hframe.
  destruct (nextRecord_on_frame fuel allow rr rr1 _ body Hcached Hframe) as [_ Hnext].
  rewrite Hnext. unfold openFrame. rewrite index_head. cbn [mbind outcome_bind].
  rewrite Forall_forall in Htypes.
  assert (knownRecordType (byte ct) = true) as ->.
  { destruct Hct as [-> | ->].
    - by rewrite byte_small by (apply Htypes, knownRecordType_cases, Hknown).
    - rewrite byte_small
        by (apply Htypes, knownRecordType_cases, knownRecordType_ApplicationData).
      apply knownRecordType_ApplicationData. }
  cbn [mbind outcome_bind]. unfold validateVersion. rewrite Hstrict. cbn [negb].
  change (index (byte ct :: Z.shiftr v 8 :: ?l) 1) with (Ret (Z.shiftr v 8) : outcome Z).
  change (index (byte ct :: Z.shiftr v 8 :: Z.land v 255 :: ?l) 2)
    with (Ret (Z.land v 255) : outcome Z).
  cbn [mbind outcome_bind].
  assert (Z.shiftr v 8 = 3 -> Z.land v 255 = 1 -> v = 769) as Hback.
  { rewrite Z.shiftr_div_pow2 by lia. change 255 with (Z.ones 8).
    rewrite Z.land_ones by lia. change (2 ^ 8) with 256. intros Hq Hr.
    rewrite (Z.div_mod v 256) by lia. lia. }
  destruct (Z.eqb_spec (Z.shiftr v 8) 3) as [Hq | Hq]; cbn [negb mbind outcome_bind];
    [| done].
  destruct (Z.eqb_spec (Z.land v 255) 1) as [Hr | Hr]; cbn [negb mbind outcome_bind];
    [| done].
  by destruct Hne; apply Hback.
Qed.

(** *** What [decrypt] returns *)

Lemma scanPadding_Ret (out : list Z) (d : Z) (fuel : nat) :
  forall k p : Z,
    scanPadding fuel out d k = Ret p ->
    k <= p
    /\ (forall j, k <= j < p -> index out (d - j - 1) = Ret 0)
    /\ ((exists b, index out (d - p - 1) = Ret b /\ b <> 0) \/ d + 1 <= p).
Proof.
  induction fuel as [| fuel IH]; intros k p Hscan; [done |].
  simpl in Hscan. destruct (Z.ltb_spec k (d + 1)) as [Hin | Hout].
  - apply bind_Ret_inv in Hscan as (b & Hb & Hscan).
    destruct (Z.eqb_spec b 0) as [-> | Hnz].
    + apply IH in Hscan as (Hle & Hzeros & Hstop).
      split; [lia |]. split; [| done].
      intros j Hj. destruct (Z.eq_dec j k) as [-> | Hne]; [done |].
      apply Hzeros. lia.
    + injection Hscan as <-. split; [lia |]. split; [intros j Hj; lia |].
      left. by exists b.
  - injection Hscan as <-. split; [lia |]. split; [intros j Hj; lia |].
    right. lia.
Qed.

Lemma index_Ret (l : list Z) (i x : Z) :
  index l i = Ret x -> 0 <= i < len l /\ l !! Z.to_nat i = Some x.
Proof.
  unfold index. destruct (Z.ltb_spec i 0); [done |].
  destruct (l !! Z.to_nat i) as [y |] eqn:Hl; [| done].
  intros [= <-]. pose proof (lookup_lt_Some _ _ _ Hl). unfold len. split; [lia | done].
Qed.

Lemma slice_from_0_Ret (l frag : list Z) (n : Z) :
  slice l 0 n = Ret frag -> 0 <= n <= len l /\ frag = take (Z.to_nat n) l.
Proof.
  unfold slice. destruct (Z.leb_spec 0 n), (Z.leb_spec n (len l)); try done.
  simpl. intros [= <-]. split; [lia |].
  by rewrite Z.sub_0_r.
Qed.

(** A buffer whose last [p] bytes are zero and whose byte before them is
    [ct] is its prefix, then [ct], then [p] zeros. *)
Lemma buffer_shape (out : list Z) (p : nat) (ct : Z) :
  (p < length out)%nat ->
  out !! (length out - p - 1)%nat = Some ct ->
  (forall j : nat, (j < p)%nat -> out !! (length out - j - 1)%nat = Some 0) ->
  out = take (length out - p - 1) out ++ ct :: replicate p 0.
Proof.
  intros Hp Hct Hzeros.
  rewrite <- (take_drop (length out - p - 1) out) at 1. f_equal.
  rewrite (drop_S _ ct _ Hct). f_equal.
  symmetry. apply replicate_as_Forall. split.
  - rewrite length_drop. lia.
  - apply Forall_lookup. intros i x Hi.
    rewrite lookup_drop in Hi.
    pose proof (lookup_lt_Some _ _ _ Hi) as Hlt.
    specialize (Hzeros (length out - S (S (length out - p - 1) + i))%nat).
    replace (length out - (length out - S (S (length out - p - 1) + i)) - 1)%nat
      with (S (length out - p - 1) + i)%nat in Hzeros by lia.
    rewrite Hzeros in Hi by lia. by injection Hi as <-.
Qed.

(** Every record that [decrypt] returns has a content type other than 0: it
    is the last non-zero byte of the opened buffer, taken as it is (it is
    not checked against the record types); the fragment is what stands
    before it and [padLen] counts the zeros after it. *)
Theorem decrypt_result_shape r (sq : Z) (header : list Z) (wire pt : TLSPlaintext)
    (padLen : Z) :
  decrypt r sq header wire = Ret (pt, padLen) ->
  contentType pt <> 0 /\ 0 <= padLen /\ pt_seq pt = sq /\ pt_epoch pt = 0
  /\ exists (c : cipherState) (a : AEAD) (nonce plain : list Z),
       cipherStates r !! rl_cipher r = Some c /\ cipher c = Some a
       /\ computeNonce c sq = Ret nonce
       /\ Open a nonce (fragment wire) header = Some plain
       /\ appendInPlace (replicate (Z.to_nat (len (fragment wire) - Overhead a)) 0) plain
          = fragment pt ++ contentType pt :: replicate (Z.to_nat padLen) 0
       /\ len (fragment pt) + 1 + padLen = len (fragment wire) - Overhead a.
Proof.
  unfold decrypt, deref. intros Hdec.
  apply bind_Ret_inv in Hdec as (_ & _ & Hdec).
  destruct (cipherStates r !! rl_cipher r) as [c |] eqn:Hc; [| done].
  cbn [mbind outcome_bind] in Hdec.
  destruct (Z.ltb_spec (len (fragment wire)) (overhead c)) as [| Hlen]; [done |].
  apply bind_Ret_inv in Hdec as (buf & Hmake & Hdec).
  apply bind_Ret_inv in Hdec as (nonce & Hnonce & Hdec).
  destruct (cipher c) as [a |] eqn:Ha; [| done]. cbn [mbind outcome_bind] in Hdec.
  destruct (Open a nonce (fragment wire) header) as [plain |] eqn:Hopen; [| done].
  apply bind_Ret_inv in Hdec as (p & Hscan & Hdec).
  apply bind_Ret_inv in Hdec as (ct & Hct & Hdec).
  apply bind_Ret_inv in Hdec as (frag & Hslice & Hdec).
  injection Hdec as <- <-. cbn [contentType pt_seq pt_epoch fragment].
  unfold overhead in *. rewrite Ha in *.
  set (d := len (fragment wire) - Overhead a) in *.
  assert (buf = replicate (Z.to_nat d) 0) as ->.
  { unfold make in Hmake. destruct (d <? 0); [done |]. by injection Hmake as <-. }
  set (out := appendInPlace (replicate (Z.to_nat d) 0) plain) in *.
  assert (len out = d) as Hout
    by (unfold out; rewrite len_appendInPlace, len_replicate; lia).
  apply scanPadding_Ret in Hscan as (Hp & Hzeros & Hstop).
  apply index_Ret in Hct as [Hrange Hlook].
  destruct Hstop as [(b & Hb & Hnz) | Hpast]; [| lia].
  apply index_Ret in Hb as [_ Hb]. rewrite Hlook in Hb. injection Hb as <-.
  apply slice_from_0_Ret in Hslice as [_ ->].
  split; [done |]. split; [done |]. split; [done |]. split; [done |].
  exists c, a, nonce, plain. repeat split; try done.
  - unfold len in Hout, Hrange.
    replace (Z.to_nat (d - p - 1)) with (length out - Z.to_nat p - 1)%nat in * by lia.
    apply buffer_shape; [lia | done |].
    intros j Hj. specialize (Hzeros (Z.of_nat j)).
    destruct (index_Ret out (d - Z.of_nat j - 1) 0) as [_ Hz]; [apply Hzeros; lia |].
    by replace (Z.to_nat (d - Z.of_nat j - 1)) with (length out - j - 1)%nat in Hz by lia.
  - change (len (fragment wire) - Overhead a) with d.
    unfold len at 1. rewrite length_take. unfold len in Hout, Hrange. lia.
Qed.

(** The errors of [decrypt]: a fragment shorter than the overhead of the
    current cipher is "record too short", an [Open] that fails is "AEAD
    decrypt failed", and there is no other error. *)
Theorem decrypt_error_cases r (sq : Z) (header : list Z) (wire : TLSPlaintext)
    (c : cipherState) :
  direction r = DirectionRead ->
  cipherStates r !! rl_cipher r = Some c ->
  (len (fragment wire) < overhead c ->
   decrypt r sq header wire
   = Err (DecryptRecordTooShort (len (fragment wire)) (overhead c)))
  /\ (forall a nonce,
        overhead c <= len (fragment wire) -> cipher c = Some a ->
        computeNonce c sq = Ret nonce ->
        Open a nonce (fragment wire) header = None ->
        decrypt r sq header wire = Err DecryptAEADFailed)
  /\ (forall e, decrypt r sq header wire = Err e ->
        e = DecryptRecordTooShort (len (fragment wire)) (overhead c)
        \/ e = DecryptAEADFailed).
Proof.
  intros Hdir Hc. split; [| split].
  - intros Hshort. unfold decrypt, deref. rewrite Hdir, Hc.
    cbn [mbind outcome_bind assert Direction_eqb].
    by destruct (Z.ltb_spec (len (fragment wire)) (overhead c)); [| lia].
  - intros a nonce Hlen Ha Hnonce Hopen. unfold decrypt, deref. rewrite Hdir, Hc.
    cbn [mbind outcome_bind assert Direction_eqb].
    destruct (Z.ltb_spec (len (fragment wire)) (overhead c)); [lia |].
    unfold make. destruct (Z.ltb_spec (len (fragment wire) - overhead c) 0); [lia |].
    cbn [mbind outcome_bind]. rewrite Hnonce, Ha. cbn [mbind outcome_bind].
    by rewrite Hopen.
  - intros e. unfold decrypt, deref. rewrite Hdir, Hc.
    cbn [mbind outcome_bind assert Direction_eqb].
    destruct (len (fragment wire) <? overhead c); [intros [= <-]; by left |].
    intros [Hm | (buf & _ & Hd)]%bind_Err_inv; [by apply make_no_Err in Hm |].
    apply bind_Err_inv in Hd as [Hn | (nonce & _ & Hd)];
      [by apply computeNonce_no_Err in Hn |].
    apply bind_Err_inv in Hd as [Ha | (a & _ & Hd)]; [by destruct (cipher c) |].
    destruct (Open a nonce (fragment wire) header) as [plain |];
      [| injection Hd as <-; by right].
    apply bind_Err_inv in Hd as [Hs | (padLen & _ & Hd)];
      [by apply scanPadding_no_Err in Hs |].
    apply bind_Err_inv in Hd as [Hi | (ct & _ & Hd)]; [by apply index_no_Err in Hi |].
    apply bind_Err_inv in Hd as [Hs | (frag & _ & Hd)]; [by apply slice_no_Err in Hs |].
    done.
Qed.

(** *** Sequence numbers and lengths on the wire *)

Lemma lor_shiftl_low (hi lo n : Z) :
  0 <= n -> 0 <= lo < 2 ^ n -> Z.lor (Z.shiftl hi n) lo = Z.shiftl hi n + lo.
Proof.
  intros Hn Hlo.
  assert (Z.land (Z.shiftl hi n) lo = 0) as Hdisjoint.
  { apply Z.bits_inj'. intros m Hm. rewrite Z.land_spec, Z.bits_0.
    destruct (Z.lt_ge_cases m n).
    - by rewrite Z.shiftl_spec_low.
    - rewrite <- (Z.mod_small lo (2 ^ n)) by done.
      rewrite Z.mod_pow2_bits_high by lia. apply andb_false_r. }
  rewrite <- Z.lxor_lor by done. symmetry. by apply Z.add_nocarry_lxor.
Qed.

(** The sequence value of the wire: the counter itself on a stream; on
    datagrams the epoch in the 16 bits above the 48 bits of the counter, so
    that the shift by 48 of the read path gives the epoch back and the low
    48 bits give the counter. *)
Theorem combineSeq_fields (c : cipherState) :
  0 <= seq c < 2 ^ 48 -> 0 <= epoch c < 2 ^ 16 ->
  combineSeq c false = seq c
  /\ combineSeq c true = epoch c * 2 ^ 48 + seq c
  /\ Z.shiftr (combineSeq c true) 48 = epoch c
  /\ combineSeq c true mod 2 ^ 48 = seq c
  /\ 0 <= combineSeq c true < 2 ^ 64.
Proof.
  intros Hseq Hep. split; [done |].
  assert (combineSeq c true = epoch c * 2 ^ 48 + seq c) as ->.
  { unfold combineSeq. rewrite Z.shiftl_mul_pow2 by lia.
    rewrite uint64_small by lia.
    rewrite Z.lor_comm, <- Z.shiftl_mul_pow2 by lia.
    rewrite lor_shiftl_low by lia. by rewrite Z.shiftl_mul_pow2 by lia. }
  split; [done |]. split; [| split].
  - rewrite Z.shiftr_div_pow2 by lia.
    rewrite Z.div_add_l by lia. rewrite Z.div_small by lia. lia.
  - rewrite Z.add_comm, Z.mod_add by lia. by apply Z.mod_small.
  - lia.
Qed.

(** The length the frame reader frames by is the size [nextRecord] allocates
    for the fragment: for a header of the framing's length whose bytes are
    bytes, [frameLen] (with |) and the size computed by [nextRecord] (with
    +, from the last two bytes) are the same number, below 2^16. *)
Theorem frameLen_is_declared_size (d : recordLayerFrameDetails) (hdr : list Z) :
  len hdr = headerLen d -> Forall (fun b => 0 <= b < 256) hdr ->
  exists hi lo : Z,
    index hdr (len hdr - 2) = Ret hi /\ index hdr (len hdr - 1) = Ret lo
    /\ frameLen d hdr = Ret (Z.shiftl hi 8 + lo)
    /\ 0 <= Z.shiftl hi 8 + lo < 2 ^ 16.
Proof.
  intros Hlen Hbytes.
  assert (2 <= len hdr) as Hlong
    by (rewrite Hlen; unfold headerLen; destruct (fd_datagram d); done).
  destruct (hdr !! Z.to_nat (len hdr - 2)) as [hi |] eqn:Hhi;
    [| apply lookup_ge_None in Hhi; unfold len in *; lia].
  destruct (hdr !! Z.to_nat (len hdr - 1)) as [lo |] eqn:Hlo;
    [| apply lookup_ge_None in Hlo; unfold len in *; lia].
  rewrite Forall_lookup in Hbytes.
  pose proof (Hbytes _ _ Hhi) as Hhib. pose proof (Hbytes _ _ Hlo) as Hlob.
  assert (index hdr (len hdr - 2) = Ret hi) as Hi.
  { unfold index. destruct (Z.ltb_spec (len hdr - 2) 0); [lia |]. by rewrite Hhi. }
  assert (index hdr (len hdr - 1) = Ret lo) as Hl.
  { unfold index. destruct (Z.ltb_spec (len hdr - 1) 0); [lia |]. by rewrite Hlo. }
  exists hi, lo. split; [done |]. split; [done |]. split.
  - unfold frameLen. rewrite <- Hlen, Hi, Hl. cbn [mbind outcome_bind].
    by rewrite lor_shiftl_low by lia.
  - rewrite Z.shiftl_mul_pow2 by lia. lia.
Qed.

(** *** Keys and epochs *)

(** [Rekey] returns the error of the factory and changes nothing, or
    installs a new cipher state for the epoch with the counter at 0.  The
    cipher states that were there stay where they are.  On a datagram layer
    made for reading the new state is also entered in the map of read
    ciphers under its epoch, next to the other epochs; on any other layer
    the map is not touched.  The cache is kept. *)
Theorem Rekey_installs (ep : Z) (factory : list Z -> AEAD + error) (key iv0 : list Z) r :
  (forall e, factory key = inr e -> Rekey ep factory key iv0 r = (r, Some e))
  /\ (forall a, factory key = inl a ->
        snd (Rekey ep factory key iv0 r) = None
        /\ deref (fst (Rekey ep factory key iv0 r)) (rl_cipher (fst (Rekey ep factory key iv0 r)))
           = Ret {| epoch := ep; ivLength := len iv0; seq := 0; iv := iv0;
                    cipher := Some a |}
        /\ (forall l c, cipherStates r !! l = Some c ->
              cipherStates (fst (Rekey ep factory key iv0 r)) !! l = Some c)
        /\ (datagram r = true -> direction r = DirectionRead ->
            readCiphers (fst (Rekey ep factory key iv0 r))
            = <[ep := rl_cipher (fst (Rekey ep factory key iv0 r))]> (readCiphers r))
        /\ (datagram r = false \/ direction r = DirectionWrite ->
            readCiphers (fst (Rekey ep factory key iv0 r)) = readCiphers r)
        /\ cachedRecord (fst (Rekey ep factory key iv0 r)) = cachedRecord r
        /\ cachedError (fst (Rekey ep factory key iv0 r)) = cachedError r
        /\ conn (fst (Rekey ep factory key iv0 r)) = conn r
        /\ version (fst (Rekey ep factory key iv0 r)) = version r).
Proof.
  split.
  - intros e He. unfold Rekey, newCipherStateAead. by rewrite He.
  - intros a Ha. unfold Rekey, newCipherStateAead. rewrite Ha.
    assert (forall c, cipherStates (alloc_cipher r c) !! rl_cipher (alloc_cipher r c)
                      = Some c) as Hnew.
    { intros c. simpl. rewrite lookup_app_r by done. by rewrite Nat.sub_diag. }
    assert (forall c0 l c, cipherStates r !! l = Some c ->
                           cipherStates (alloc_cipher r c0) !! l = Some c) as Hold.
    { intros c0 l c Hl. simpl. by apply lookup_app_l_Some. }
    set (c := {| epoch := ep; ivLength := len iv0; seq := 0; iv := iv0; cipher := Some a |}).
    change (datagram (alloc_cipher r c)) with (datagram r).
    change (direction (alloc_cipher r c)) with (direction r).
    destruct (datagram r) eqn:Hdg, (direction r) eqn:Hdir;
      cbn [andb Direction_eqb fst snd]; unfold deref;
      (split; [done |]);
      (split; [simpl; rewrite lookup_app_r by done; by rewrite Nat.sub_diag |]);
      (split; [intros l c' Hl; simpl; by apply lookup_app_l_Some |]);
      (split; [done |]); (split; [by intros [? | ?] |]); done.
Qed.

(** After [ResetClear(sq)] the layer writes in the clear again, whatever
    cipher was installed before: the next record goes out as header and
    fragment, under the record's own content type, numbered [sq], and the
    counter of the new state is [sq+1].  The states that were there before
    and the map of read ciphers are as they were. *)
Theorem ResetClear_then_write r (sq : Z) (pt : TLSPlaintext) (c' : C) (err : option error) :
  0 <= sq < 2 ^ 48 - 1 -> len (fragment pt) <= maxFragmentLen ->
  let r0 := ResetClear sq r in
  let header := wireHeader r0 (contentType pt) sq (len (fragment pt)) in
  conn_Write (conn r) (header ++ fragment pt) = (c', err) ->
  Epoch r0 = Ret EpochClear
  /\ readCiphers r0 = readCiphers r
  /\ WriteRecord pt r0
     = (set_conn
          (set_cipherStates r0 (cipherStates r ++ [set_seq newCipherStateNull (sq + 1)])) c',
        match err with
        | Some e => Err e
        | None => Ret tt
        end).
Proof.
  intros Hsq Hlen r0 header Hwrite.
  assert (cipherStates r0 !! rl_cipher r0 = Some (set_seq newCipherStateNull sq)) as Hcur.
  { simpl. rewrite lookup_app_r by done. by rewrite Nat.sub_diag. }
  split; [| split; [done |]].
  - unfold Epoch, deref. by rewrite Hcur.
  - unfold WriteRecord.
    assert (buildRecord pt (set_seq newCipherStateNull sq) 0 r0
            = Ret (header, fragment pt)) as Hbuild.
    { rewrite buildRecord_cleartext by (done || lia). unfold header.
      do 3 f_equal. unfold combineSeq. cbn [seq set_seq epoch newCipherStateNull EpochClear].
      destruct (datagram r0); [| done].
      change (uint64 (Z.shiftl 0 48)) with 0. apply Z.lor_0_r. }
    rewrite (writeRecordWithPadding_emits r0 pt _ _ 0 header (fragment pt) Hcur Hbuild
               _ (incrementAt_advances r0 _ _ Hcur ltac:(simpl; lia))).
    simpl conn. rewrite Hwrite. do 2 f_equal.
    cbn [cipherStates set_cipherStates rl_cipher r0 ResetClear alloc_cipher set_cipher seq set_seq].
    rewrite uint64_small by lia.
    by rewrite insert_app_r_alt, Nat.sub_diag by done.
Qed.

(** [DiscardReadKey] does nothing on a stream layer and panics on an epoch
    that is not in the map.  On a datagram layer it takes the epoch out of
    the map of read ciphers and leaves the other epochs, the current cipher
    and all cipher states alone; from then on a record of that epoch is
    answered with would-block, with or without the opt-in for old epochs,
    also when it is the epoch of the current cipher. *)
Theorem DiscardReadKey_effect (ep : Z) r :
  (datagram r = false -> DiscardReadKey ep r = (r, Ret tt))
  /\ (datagram r = true -> readCiphers r !! ep = None ->
      DiscardReadKey ep r = (r, Panic AssertionFailed))
  /\ (datagram r = true -> is_Some (readCiphers r !! ep) ->
      snd (DiscardReadKey ep r) = Ret tt
      /\ readCiphers (fst (DiscardReadKey ep r)) !! ep = None
      /\ (forall e', e' <> ep ->
            readCiphers (fst (DiscardReadKey ep r)) !! e' = readCiphers r !! e')
      /\ cipherStates (fst (DiscardReadKey ep r)) = cipherStates r
      /\ rl_cipher (fst (DiscardReadKey ep r)) = rl_cipher r
      /\ forall fuel allow r1 header body hs h0 size cur,
           cachedRecord r = None ->
           cipherStates r !! rl_cipher r = Some cur ->
           readFrame fuel (fst (DiscardReadKey ep r)) = (r1, Ret (header, body)) ->
           acceptedHeader header h0 size ->
           slice header 3 11 = Ret hs ->
           Z.shiftr (decodeUint hs 8) 48 = ep ->
           nextRecord fuel allow (fst (DiscardReadKey ep r))
           = (r1, Ret (None, Some AlertWouldBlock))).
Proof.
  unfold DiscardReadKey. split; [| split].
  - by intros ->.
  - by intros -> ->.
  - intros Hdg [l Hl]. rewrite Hdg, Hl. cbn [negb fst snd].
    split; [done |]. split; [apply lookup_delete_eq |].
    split; [intros e' Hne; by apply lookup_delete_ne |].
    split; [done |]. split; [done |].
    intros fuel allow r1 header body hs h0 size cur Hcached Hcur Hframe Hacc Hs Hep.
    set (r' := set_readCiphers r (delete ep (readCiphers r))) in *.
    destruct (nextRecord_on_frame fuel allow r' r1 header body Hcached Hframe)
      as [Hio Hnext].
    pose proof Hio as (_ & _ & _ & _ & _ & Hrc & Hdg1 & Hcs).
    assert (cipherStates r1 !! rl_cipher r' = Some cur) as Hcur1
      by (rewrite Hcs; exact Hcur).
    rewrite Hnext, (openFrame_accepted _ _ _ _ _ h0 size cur Hacc Hcur1).
    cbv zeta. rewrite Hdg1. change (datagram r') with (datagram r).
    rewrite Hdg, Hs. cbn [mbind outcome_bind].
    rewrite Hrc, Hep. change (readCiphers r') with (delete ep (readCiphers r)).
    by rewrite lookup_delete_eq.
Qed.

(** *** The envelope helper and the hash to the base field *)

(** What [AuthEnc] seals under a key, [AuthDec] opens under the same key,
    for any two values of [pakeid]: the nonce and the associated data are
    the fixed bytes 00..0f and nothing of [pakeid] enters the envelope. *)
Theorem AuthDec_AuthEnc (newAEAD : list Z -> option AEAD) (a : AEAD)
    (pakeid pakeid' RwdU EnvU : list Z) :
  newAEAD RwdU = Some a -> AEAD_ok a ->
  exists EncU : list Z,
    AuthEnc newAEAD pakeid RwdU EnvU = Ret EncU
    /\ len EncU = len EnvU + Overhead a
    /\ AuthEnc newAEAD pakeid' RwdU EnvU = Ret EncU
    /\ AuthDec newAEAD pakeid' RwdU EncU = Ret EnvU.
Proof.
  intros Hnew Hok. unfold AuthEnc, AuthDec. rewrite Hnew.
  eexists. split; [done |]. split; [apply (seal_length a Hok) |]. split; [done |].
  cbv zeta. by rewrite (open_seal a Hok).
Qed.

Lemma setBytes_snoc (l : list Z) (x : Z) : setBytes (l ++ [x]) = 256 * setBytes l + x.
Proof. unfold setBytes. rewrite fold_left_app. simpl. lia. Qed.

(** [hashToBase] keeps the first [BitLen(P)/8] bytes of the digest, masks the
    last of them with [0xff >> (8 - BitLen(P) mod 8)] and reduces the
    big-endian number modulo P.  When the bit length of P is a multiple of
    8 (as for P-256) the mask is 0: the last kept byte of the digest does
    not enter the result, which is 256 times the number of the bytes before
    it, modulo P.  The result lies in [0, P). *)
Theorem hashToBase_value (hash : list Z -> list Z) (p : positive) (x : list Z) :
  8 <= bitLen (Z.pos p) -> bitLen (Z.pos p) / 8 <= len (hash x) ->
  exists last : Z,
    hash x !! Z.to_nat (bitLen (Z.pos p) / 8 - 1) = Some last
    /\ hashToBase hash p x
       = Ret ((256 * setBytes (take (Z.to_nat (bitLen (Z.pos p) / 8 - 1)) (hash x))
               + Z.land last (Z.shiftr 255 (8 - bitLen (Z.pos p) mod 8)))
              mod Z.pos p)
    /\ (bitLen (Z.pos p) mod 8 = 0 ->
        hashToBase hash p x
        = Ret ((256 * setBytes (take (Z.to_nat (bitLen (Z.pos p) / 8 - 1)) (hash x)))
               mod Z.pos p))
    /\ (forall n, hashToBase hash p x = Ret n -> 0 <= n < Z.pos p).
Proof.
  intros Hbits Hlen.
  set (bits := bitLen (Z.pos p)) in *. set (d := hash x) in *.
  assert (1 <= bits / 8) as Hbytes by (apply Z.div_le_lower_bound; lia).
  set (m := Z.to_nat (bits / 8 - 1)).
  assert (Z.to_nat (bits / 8) = S m) as HSm by lia.
  destruct (d !! m) as [last |] eqn:Hlast;
    [| apply lookup_ge_None in Hlast; unfold len in Hlen; lia].
  assert (hashToBase hash p x
          = Ret ((256 * setBytes (take m d) + Z.land last (Z.shiftr 255 (8 - bits mod 8)))
                 mod Z.pos p)) as Hval.
  { unfold hashToBase. fold bits. fold d.
    rewrite Z.shiftr_div_pow2 by lia. change (2 ^ 3) with 8.
    change 7 with (Z.ones 3). rewrite Z.land_ones by lia. change (2 ^ 3) with 8.
    unfold slice. destruct (Z.leb_spec 0 (bits / 8)); [| lia].
    destruct (Z.leb_spec (bits / 8) (len d)); [| lia].
    cbn [andb Z.leb mbind outcome_bind]. rewrite Z.sub_0_r, HSm.
    change (Z.to_nat 0) with 0%nat. rewrite drop_0, (take_S_r d m last Hlast).
    assert (length (take m d) = m) as Hm.
    { rewrite length_take. apply lookup_lt_Some in Hlast. lia. }
    replace (bits / 8 - 1) with (len (take m d) + 0) by (unfold len; lia).
    change (0 <=? 0) with true. cbn [andb mbind outcome_bind].
    rewrite index_app_r by lia. rewrite index_head. cbn [mbind outcome_bind].
    rewrite store_app_r by lia. rewrite store_head. cbn [mbind outcome_bind].
    by rewrite setBytes_snoc. }
  exists last. split; [done |]. split; [done |]. split.
  - intros Hmult. rewrite Hval, Hmult.
    change (Z.shiftr 255 (8 - 0)) with 0. by rewrite Z.land_0_r, Z.add_0_r.
  - intros n. rewrite Hval. intros [= <-]. apply Z.mod_pos_bound. lia.
Qed.

End Coverage.

(** ** The further properties at concrete inputs *)

(** [datagram_epoch_gate] at the epoch-2 datagram: unknown to a reader that
    holds epoch 0 only, old for a reader at epoch 3. *)
Lemma datagram_epoch_gate_witness :
  nextRecord (H1 := laxPackage) 5 true epoch0Reader
  = (fst (readFrame 5 epoch0Reader), Ret (None, Some AlertWouldBlock)).
Proof.
  refine (proj1 (proj2 (datagram_epoch_gate (H1 := laxPackage) 5 true epoch0Reader _
                          (take 13 epoch2Datagram) (drop 13 epoch2Datagram)
                          [0; 2; 0; 0; 0; 0; 0; 0] 23 7 newCipherStateNull
                          _ _ _ _ _ _)) _); try reflexivity.
  repeat split; try reflexivity; try (vm_compute; discriminate).
  by exists 0, 7.
Defined.

(** [stream_cleartext_read] at the record "A". *)
Lemma stream_cleartext_read_witness :
  snd (nextRecord (H1 := strictPackage) 5 false (plainReader clearRecord))
  = Ret (Some {| contentType := 23; pt_epoch := 0; pt_seq := 0; fragment := [65] |}, None).
Proof.
  refine (f_equal snd
            (stream_cleartext_read (H1 := strictPackage) 5 false (plainReader clearRecord) _
               [23; 3; 1; 0; 1] [65] 23 newCipherStateNull _ _ _ _ _ _ _ _));
    try reflexivity.
  - repeat split; try reflexivity; try (vm_compute; discriminate).
    by exists 0, 1.
  - vm_compute. discriminate.
Defined.

(** [old_cleartext_epoch_read] at the epoch-0 datagram read at epoch 3. *)
Lemma old_cleartext_epoch_read_witness :
  snd (ReadRecordAnyEpoch (H1 := laxPackage) 5 lateReader)
  = Ret (Some {| contentType := 23; pt_epoch := 0; pt_seq := 0;
                 fragment := [104; 101; 108; 108; 111] |}, None).
Proof.
  refine (proj1 (old_cleartext_epoch_read (H1 := laxPackage) 5 lateReader _
                   (take 13 epoch0Datagram) (drop 13 epoch0Datagram)
                   [0; 0; 0; 0; 0; 0; 0; 0] 23
                   (mkCipherState 3 12 0 iv12 (Some (testAEAD 9))) newCipherStateNull 0
                   _ _ _ _ _ _ _ _ _ _ _ _ _)); try reflexivity.
  - repeat split; try reflexivity; try (vm_compute; discriminate).
    by exists 0, 5.
  - vm_compute. discriminate.
  - vm_compute. discriminate.
  - discriminate.
Defined.

(** [read_validation_errors] at a frame whose first byte is 99. *)
Lemma read_validation_errors_witness :
  nextRecord (H1 := strictPackage) 5 false (plainReader [99; 3; 1; 0; 1; 65])
  = (fst (readFrame 5 (plainReader [99; 3; 1; 0; 1; 65])),
     Ret (None, Some (ErrUnknownContentType 99))).
Proof.
  refine (proj1 (proj2 (read_validation_errors (H1 := strictPackage) 5 false
                          (plainReader [99; 3; 1; 0; 1; 65]) _ [99; 3; 1; 0; 1] [65] 99
                          _ _ _)) _); reflexivity.
Defined.

(** [transport_read_outcomes] at a connection that fails. *)
Lemma transport_read_outcomes_witness :
  snd (nextRecord (H1 := strictPackage) 1 false failingReader)
  = Ret (None, Some (ForeignError 1)).
Proof.
  refine (f_equal snd
            (proj1 (transport_read_outcomes (H1 := strictPackage) 0 false failingReader
                      (mkPipe [] []) [] (Some (ForeignError 1)) _ _ _)
               (ForeignError 1) _)); reflexivity.
Defined.

(** [peek_then_read] at the record "hello". *)
Lemma peek_then_read_witness :
  exists pt : TLSPlaintext,
    contentType pt = 23
    /\ ReadRecord (H1 := strictPackage) 5
         (fst (PeekRecordType (H1 := strictPackage) 5 false (keyedReader helloRecord)))
       = (set_cached
            (fst (PeekRecordType (H1 := strictPackage) 5 false (keyedReader helloRecord)))
            None None,
          Ret (Some pt, None)).
Proof.
  refine (peek_then_read (H1 := strictPackage) 5 5 false (keyedReader helloRecord) _ 23 _ _);
    reflexivity.
Defined.

(** [record_or_error_never_both] at a record with one byte changed. *)
Lemma record_or_error_witness :
  cachedError (fst (nextRecord (H1 := strictPackage) 5 false (keyedReader corruptedRecord)))
  = None.
Proof.
  refine (proj1 (record_or_error_never_both (H1 := strictPackage) 5 false
                   (keyedReader corruptedRecord) _ None (Some DecryptAEADFailed) _ _));
    reflexivity.
Defined.


(** [write_consumes_sequence_number] at "hello" written in the clear. *)
Lemma write_consumes_sequence_number_witness :
  seq <$> cipherStates (fst (WriteRecord (H1 := strictPackage) hello clearWriter)) !! 0%nat
  = Some 1
  /\ written (conn (fst (WriteRecord (H1 := strictPackage) hello clearWriter)))
     = [[23; 3; 1; 0; 5; 104; 101; 108; 108; 111]].
Proof.
  pose proof (write_consumes_sequence_number (H1 := strictPackage) clearWriter hello
                newCipherStateNull 0 0 [23; 3; 1; 0; 5] [104; 101; 108; 108; 111]
                (mkPipe [] [[23; 3; 1; 0; 5; 104; 101; 108; 108; 111]]) None
                eq_refl ltac:(simpl; lia) eq_refl eq_refl) as Hrun.
  unfold WriteRecord. change (rl_cipher clearWriter) with 0%nat.
  rewrite Hrun. split; reflexivity.
Defined.

(** [write_at_counter_limit_panics] at a counter of 2^48-1. *)
Lemma write_at_counter_limit_witness :
  snd (writeRecordWithPadding (H1 := strictPackage) hello 1 0 limitWriter)
  = Panic SequenceWraparound
  /\ conn (fst (writeRecordWithPadding (H1 := strictPackage) hello 1 0 limitWriter))
     = conn limitWriter
  /\ cipherStates (fst (writeRecordWithPadding (H1 := strictPackage) hello 1 0 limitWriter))
     = cipherStates limitWriter.
Proof.
  refine (write_at_counter_limit_panics (H1 := strictPackage) limitWriter hello
            (set_seq newCipherStateNull (2 ^ 48 - 1)) 1 0
            [23; 3; 1; 0; 5] [104; 101; 108; 108; 111] _ _ _); reflexivity.
Defined.


(** [decrypt_result_shape] at the sealed "hello" with two bytes of
    padding. *)
Lemma decrypt_result_shape_witness :
  contentType hello <> 0.
Proof.
  refine (proj1 (decrypt_result_shape (keyedReader []) 0 [23; 3; 1; 0; 9]
                   {| contentType := 23; pt_epoch := 0; pt_seq := 0;
                      fragment := [111; 98; 107; 107; 104; 16; 7; 7; 152] |}
                   {| contentType := 23; pt_epoch := 0; pt_seq := 0;
                      fragment := [104; 101; 108; 108; 111] |} 2 _)).
  reflexivity.
Defined.

(** [decrypt_error_cases] at a fragment shorter than the overhead. *)
Lemma decrypt_error_cases_witness :
  decrypt (keyedReader []) 0 [23; 3; 1; 0; 0]
    {| contentType := 23; pt_epoch := 0; pt_seq := 0; fragment := [] |}
  = Err (DecryptRecordTooShort 0 1).
Proof.
  refine (proj1 (decrypt_error_cases (keyedReader []) 0 [23; 3; 1; 0; 0]
                   {| contentType := 23; pt_epoch := 0; pt_seq := 0; fragment := [] |}
                   (mkCipherState 1 12 0 iv12 (Some (testAEAD 7))) _ _) _);
    try reflexivity.
Defined.

(** [combineSeq_fields] at epoch 2, counter 5. *)
Lemma combineSeq_fields_witness :
  combineSeq (mkCipherState 2 12 5 iv12 None) true = 2 * 2 ^ 48 + 5
  /\ Z.shiftr (combineSeq (mkCipherState 2 12 5 iv12 None) true) 48 = 2.
Proof.
  destruct (combineSeq_fields (mkCipherState 2 12 5 iv12 None)) as (_ & Hval & Hep & _).
  - simpl. lia.
  - simpl. lia.
  - split; [exact Hval | exact Hep].
Defined.

(** [frameLen_is_declared_size] at a stream header declaring 9 bytes. *)
Lemma frameLen_is_declared_size_witness :
  exists hi lo : Z,
    index [23; 3; 1; 0; 9] (len [23; 3; 1; 0; 9] - 2) = Ret hi
    /\ index [23; 3; 1; 0; 9] (len [23; 3; 1; 0; 9] - 1) = Ret lo
    /\ frameLen streamFraming [23; 3; 1; 0; 9] = Ret (Z.shiftl hi 8 + lo)
    /\ 0 <= Z.shiftl hi 8 + lo < 2 ^ 16.
Proof.
  apply (frameLen_is_declared_size streamFraming [23; 3; 1; 0; 9]).
  - reflexivity.
  - repeat constructor; lia.
Defined.

(** [Rekey_installs] at a datagram reader keyed for epoch 2. *)
Lemma Rekey_installs_witness :
  readCiphers (fst (Rekey 2 testFactory [7] iv12 epoch0Reader))
  = <[2 := rl_cipher (fst (Rekey 2 testFactory [7] iv12 epoch0Reader))]>
      (readCiphers epoch0Reader).
Proof.
  refine (proj1 (proj2 (proj2 (proj2 (proj2 (Rekey_installs 2 testFactory [7] iv12
                                               epoch0Reader) (testAEAD 7) _)))) _ _);
    reflexivity.
Defined.

(** [ResetClear_then_write] at a keyed writer reset to sequence number 7. *)
Lemma ResetClear_then_write_witness :
  Epoch (ResetClear 7 keyedWriter) = Ret EpochClear
  /\ snd (WriteRecord (H1 := strictPackage) hello (ResetClear 7 keyedWriter)) = Ret tt
  /\ written (conn (fst (WriteRecord (H1 := strictPackage) hello (ResetClear 7 keyedWriter))))
     = [[23; 3; 1; 0; 5; 104; 101; 108; 108; 111]].
Proof.
  destruct (ResetClear_then_write (H1 := strictPackage) keyedWriter 7 hello
              (mkPipe [] [[23; 3; 1; 0; 5; 104; 101; 108; 108; 111]]) None)
    as (Hep & _ & Hrun).
  - lia.
  - vm_compute. discriminate.
  - reflexivity.
  - split; [exact Hep |]. rewrite Hrun. split; reflexivity.
Defined.

(** [DiscardReadKey_effect] at epoch 2 of the reader at epoch 3: the
    epoch-2 datagram is then dropped even with the opt-in. *)
Lemma DiscardReadKey_effect_witness :
  snd (ReadRecordAnyEpoch (H1 := laxPackage) 5 (fst (DiscardReadKey 2 epoch3Reader)))
  = Ret (None, Some AlertWouldBlock).
Proof.
  destruct (proj2 (proj2 (DiscardReadKey_effect (H1 := laxPackage) 2 epoch3Reader))
              eq_refl (ex_intro _ 1%nat eq_refl)) as (_ & _ & _ & _ & _ & Hdrop).
  unfold ReadRecordAnyEpoch.
  rewrite (Hdrop 5%nat true (fst (readFrame 5 (fst (DiscardReadKey 2 epoch3Reader)))) (take 13 epoch2Datagram) (drop 13 epoch2Datagram)
             [0; 2; 0; 0; 0; 0; 0; 0] 23 7 (mkCipherState 3 12 0 iv12 (Some (testAEAD 9))));
    try reflexivity.
  repeat split; try reflexivity; try (vm_compute; discriminate).
  by exists 0, 7.
Defined.

(** [AuthDec_AuthEnc] at the test AEAD. *)
Lemma AuthDec_AuthEnc_witness :
  exists EncU : list Z,
    AuthEnc testNewAEAD [1] [7] [104; 105] = Ret EncU
    /\ len EncU = len [104; 105] + Overhead (testAEAD 7)
    /\ AuthEnc testNewAEAD [2] [7] [104; 105] = Ret EncU
    /\ AuthDec testNewAEAD [2] [7] EncU = Ret [104; 105].
Proof.
  apply (AuthDec_AuthEnc testNewAEAD (testAEAD 7) [1] [2] [7] [104; 105]).
  - reflexivity.
  - apply testAEAD_ok.
Defined.

(** [hashToBase_value] at the prime of P-256 and a 32-byte digest: the last
    byte of the digest does not enter the result. *)
Lemma hashToBase_value_witness :
  hashToBase countingDigest p256 [1; 2; 3]
  = Ret ((256 * setBytes (take 31 (countingDigest [1; 2; 3]))) mod Z.pos p256).
Proof.
  destruct (hashToBase_value countingDigest p256 [1; 2; 3]) as (last & _ & _ & Hmult & _).
  - vm_compute. discriminate.
  - vm_compute. discriminate.
  - apply Hmult. reflexivity.
Defined.

(** [SetVersion_then_read] at version 0x0303: the record written in the
    clear is refused by a reader that checks versions. *)
Lemma SetVersion_then_read_witness :
  snd (nextRecord (H1 := strictPackage) 5 false
         (plainReader [23; 3; 3; 0; 5; 104; 101; 108; 108; 111]))
  = Ret (None, Some (ErrInvalidVersion 3 3)).
Proof.
  refine (f_equal snd
            (proj2 (proj2 (SetVersion_then_read (H1 := strictPackage) 5 false clearWriter
                             (plainReader [23; 3; 3; 0; 5; 104; 101; 108; 108; 111]) _ 771
                             hello newCipherStateNull 0 [23; 3; 3; 0; 5]
                             [104; 101; 108; 108; 111] _ _ _))
               _ _ _ _ _ _)); try reflexivity.
  - lia.
  - lia.
  - repeat constructor; simpl; lia.
Defined.
